(** * Spotify MCP server: a shallow embedding of its dispatch and request core

    Sources embedded here:
    - [src/utils/api.ts]: [SpotifyApi.buildQueryString];
    - [src/utils/auth.ts]: [AuthManager.getAccessToken];
    - [src/handlers/*.ts] and the albums handler: the identifier extractors and
      the argument checks of the handlers;
    - [src/index.ts]: [validateArgs], [executeAppleScript] and the tool switch
      of [setupToolHandlers]. *)

From Stdlib Require Import String Ascii List ZArith Bool Lia Permutation.
Import ListNotations.
Open Scope string_scope.

(* ------------------------------------------------------------------------- *)
(** ** JavaScript string primitives used by the code *)

(** [s.split(c)] for a one-character separator: never returns the empty array
    ([''.split(':')] is [['']]). *)
Fixpoint split_on (c : ascii) (s : string) : list string :=
  match s with
  | EmptyString => [EmptyString]
  | String a s' =>
      if Ascii.eqb a c then EmptyString :: split_on c s'
      else match split_on c s' with
           | h :: t => String a h :: t
           | [] => [String a EmptyString]
           end
  end.

(** [s.startsWith(p)]. *)
Definition startsWith (s p : string) : bool := String.prefix p s.

(** [s.includes(p)]: [p] occurs somewhere in [s]. *)
Fixpoint includes (s p : string) : bool :=
  String.prefix p s ||
  match s with
  | EmptyString => false
  | String _ s' => includes s' p
  end.

(** The JS value [undefined] where a string was read out of range. In
    [extract_by_prefix] it is never reached: a string with a
    ["spotify:<kind>:"] prefix splits into at least three segments. *)
Definition js_undefined_string : string := "undefined".

(* ------------------------------------------------------------------------- *)
(** ** Identifier normalisation ([extractArtistId], [extractTrackId], ...) *)

(** [id.startsWith(pfx) ? id.split(':')[2] : id] *)
Definition extract_by_prefix (pfx id : string) : string :=
  if startsWith id pfx
  then match nth_error (split_on ":" id) 2 with
       | Some seg => seg
       | None => js_undefined_string
       end
  else id.

Definition extractArtistId := extract_by_prefix "spotify:artist:".
Definition extractTrackId := extract_by_prefix "spotify:track:".
Definition extractAlbumId := extract_by_prefix "spotify:album:".
Definition extractAudiobookId := extract_by_prefix "spotify:audiobook:".
Definition extractPlaylistId := extract_by_prefix "spotify:playlist:".

(** The prefix the extractor of a handler kind tests for. *)
Definition kind_prefix (kind : string) : string := "spotify:" ++ kind ++ ":".

(** The first colon-delimited segment of a string. *)
Definition first_segment (s : string) : string := hd EmptyString (split_on ":" s).

Fixpoint has_colon (s : string) : bool :=
  match s with
  | EmptyString => false
  | String a s' => Ascii.eqb a ":" || has_colon s'
  end.

(* ------------------------------------------------------------------------- *)
(** ** Percent-encoding

    A Rocq [ascii] character is read as the code point U+0000..U+00FF; its
    UTF-8 encoding is one byte below 128 and two bytes above. *)

Definition utf8_bytes (c : ascii) : list nat :=
  let n := nat_of_ascii c in
  if Nat.ltb n 128 then [n] else [192 + n / 64; 128 + n mod 64].

Definition hex_digit (n : nat) : ascii :=
  ascii_of_nat (if Nat.ltb n 10 then 48 + n else 55 + n).

(** [%XX] with upper-case hex digits, as both encoders emit. *)
Definition pct_byte (b : nat) : string :=
  String "%" (String (hex_digit (b / 16)) (String (hex_digit (b mod 16)) EmptyString)).

Definition pct_encode_char (c : ascii) : string :=
  fold_right (fun b acc => pct_byte b ++ acc) EmptyString (utf8_bytes c).

Definition is_alnum (c : ascii) : bool :=
  let n := nat_of_ascii c in
  (Nat.leb 48 n && Nat.leb n 57) || (Nat.leb 65 n && Nat.leb n 90) || (Nat.leb 97 n && Nat.leb n 122).

(** The application/x-www-form-urlencoded byte serializer used by
    [URLSearchParams.prototype.toString]: keeps [*-._] and alphanumerics,
    writes a space as [+], percent-encodes the rest. *)
Definition form_safe (c : ascii) : bool :=
  is_alnum c || Ascii.eqb c "*" || Ascii.eqb c "-" || Ascii.eqb c "." || Ascii.eqb c "_".

Definition form_encode_char (c : ascii) : string :=
  if Ascii.eqb c " " then "+"
  else if form_safe c then String c EmptyString
  else pct_encode_char c.

Fixpoint form_encode (s : string) : string :=
  match s with
  | EmptyString => EmptyString
  | String c s' => form_encode_char c ++ form_encode s'
  end.

(** [encodeURIComponent]: keeps alphanumerics and [-_.!~*'()]. *)
Definition uri_unreserved (c : ascii) : bool :=
  is_alnum c || Ascii.eqb c "-" || Ascii.eqb c "_" || Ascii.eqb c "." ||
  Ascii.eqb c "!" || Ascii.eqb c "~" || Ascii.eqb c "*" ||
  Ascii.eqb c "'" || Ascii.eqb c "(" || Ascii.eqb c ")".

Fixpoint encodeURIComponent (s : string) : string :=
  match s with
  | EmptyString => EmptyString
  | String c s' =>
      (if uri_unreserved c then String c EmptyString else pct_encode_char c)
        ++ encodeURIComponent s'
  end.

(* ------------------------------------------------------------------------- *)
(** ** Scalars and their [toString] *)

(** [string | number | boolean]; numbers are the integral ones the handlers
    pass (limits and offsets). *)
Inductive scalar :=
| SStr (s : string)
| SNum (z : Z)
| SBool (b : bool).

Fixpoint digits_aux (fuel : nat) (n : Z) (acc : string) : string :=
  match fuel with
  | O => acc
  | S f =>
      let acc' := String (ascii_of_nat (48 + Z.to_nat (n mod 10))) acc in
      if (n / 10 =? 0)%Z then acc' else digits_aux f (n / 10) acc'
  end.

Definition decimal_of_pos (p : positive) : string :=
  digits_aux (Pos.size_nat p) (Zpos p) EmptyString.

(** [Number.prototype.toString()] on an integer. *)
Definition string_of_Z (z : Z) : string :=
  match z with
  | Z0 => "0"
  | Zpos p => decimal_of_pos p
  | Zneg p => "-" ++ decimal_of_pos p
  end.

Definition scalar_toString (v : scalar) : string :=
  match v with
  | SStr s => s
  | SNum z => string_of_Z z
  | SBool b => if b then "true" else "false"
  end.

(* ------------------------------------------------------------------------- *)
(** ** Object property order ([Object.entries])

    A JS object literal is written as its properties in insertion order, with
    distinct keys; [None] is the value [undefined]. [Object.entries] lists the
    array-index keys first, in ascending numeric order, then the other string
    keys in insertion order. *)

Definition js_object (V : Type) := list (string * V).

Definition digit_val (c : ascii) : option Z :=
  let n := nat_of_ascii c in
  if Nat.leb 48 n && Nat.leb n 57 then Some (Z.of_nat (n - 48)) else None.

Fixpoint digits_value (s : string) (acc : Z) : option Z :=
  match s with
  | EmptyString => Some acc
  | String c s' =>
      match digit_val c with
      | Some d => digits_value s' (acc * 10 + d)
      | None => None
      end
  end.

(** A canonical numeric string of an integer in [0, 2^32 - 2]. *)
Definition array_index (k : string) : option Z :=
  match k with
  | EmptyString => None
  | String "0" EmptyString => Some 0%Z
  | String "0" _ => None
  | _ => match digits_value k 0 with
         | Some n => if (n <=? 4294967294)%Z then Some n else None
         | None => None
         end
  end.

Fixpoint insert_by_index {V} (n : Z) (kv : string * V) (l : list (Z * (string * V)))
  : list (Z * (string * V)) :=
  match l with
  | [] => [(n, kv)]
  | (m, kv') :: l' => if (n <? m)%Z then (n, kv) :: l else (m, kv') :: insert_by_index n kv l'
  end.

Fixpoint index_entries {V} (o : js_object V) : list (Z * (string * V)) :=
  match o with
  | [] => []
  | (k, v) :: o' =>
      match array_index k with
      | Some n => insert_by_index n (k, v) (index_entries o')
      | None => index_entries o'
      end
  end.

Definition Object_entries {V} (o : js_object V) : list (string * V) :=
  app (map snd (index_entries o)) (filter (fun kv => match array_index (fst kv) with
                                                 | Some _ => false
                                                 | None => true end) o).

(* ------------------------------------------------------------------------- *)
(** ** [SpotifyApi.buildQueryString] *)

(** A [URLSearchParams] is its list of name/value pairs. [set] replaces the
    first pair with that name and drops the others, or appends. *)
Definition URLSearchParams := list (string * string).

Fixpoint usp_set_aux (k v : string) (l : URLSearchParams) (seen : bool) : URLSearchParams :=
  match l with
  | [] => []
  | (k', v') :: l' =>
      if String.eqb k k'
      then if seen then usp_set_aux k v l' true else (k, v) :: usp_set_aux k v l' true
      else (k', v') :: usp_set_aux k v l' seen
  end.

Definition usp_set (k v : string) (l : URLSearchParams) : URLSearchParams :=
  if existsb (fun kv => String.eqb k (fst kv)) l then usp_set_aux k v l false
  else app l [(k, v)].

Definition usp_toString (l : URLSearchParams) : string :=
  String.concat "&" (map (fun kv => form_encode (fst kv) ++ "=" ++ form_encode (snd kv)) l).

Definition buildQueryString (params : js_object (option scalar)) : string :=
  let urlParams :=
    fold_left (fun acc kv =>
                 match snd kv with
                 | Some value => usp_set (fst kv) (scalar_toString value) acc
                 | None => acc
                 end) (Object_entries params) [] in
  let queryString := usp_toString urlParams in
  if String.eqb queryString EmptyString then EmptyString else "?" ++ queryString.

(* ------------------------------------------------------------------------- *)
(** ** Errors *)

(** [ErrorCode] of the MCP SDK. *)
Inductive ErrorCode :=
| ConnectionClosed | RequestTimeout | ParseError | InvalidRequest
| MethodNotFound | InvalidParams | InternalError.

(** A thrown JS value: an [McpError], or any other [Error] (name, message). *)
Inductive JsError :=
| McpError (code : ErrorCode) (message : string)
| OtherError (name : string) (message : string).

(* ------------------------------------------------------------------------- *)
(** ** [AuthManager.getAccessToken] *)

Record TokenInfo := { accessToken : string; expiresAt : Z }.

(** How the [axios.post] to the token endpoint settles: a response carrying
    [access_token] and [expires_in] (seconds), an [AxiosError] (with
    [error.response?.data?.error] and [error.message]), or a rejection with
    some other value, which the catch block rethrows. *)
Inductive ExchangeOutcome :=
| ExchangeOk (access_token : string) (expires_in : Z)
| ExchangeAxiosError (response_error : option string) (message : string)
| ExchangeOtherError (e : JsError).

(** One call: the cached [tokenInfo] before, [Date.now()] at the validity test,
    the outcome of the exchange (consulted only if the call is made) and
    [Date.now()] read after the response. *)
Record TokenStep := {
  ts_result : JsError + string;   (** resolved token or thrown error *)
  ts_cache : option TokenInfo;    (** [this.tokenInfo] afterwards *)
  ts_exchanges : nat              (** [axios.post] calls made *)
}.

Definition getAccessToken (tokenInfo : option TokenInfo) (now : Z)
    (exchange : ExchangeOutcome) (now_after : Z) : TokenStep :=
  let renew :=
    match exchange with
    | ExchangeOk access_token expires_in =>
        let ti := {| accessToken := access_token;
                     expiresAt := (now_after + expires_in * 1000)%Z |} in
        {| ts_result := inr (accessToken ti); ts_cache := Some ti; ts_exchanges := 1 |}
    | ExchangeAxiosError response_error message =>
        {| ts_result :=
             inl (McpError InternalError
                    ("Failed to get Spotify access token: " ++
                     match response_error with Some e => e | None => message end));
           ts_cache := tokenInfo; ts_exchanges := 1 |}
    | ExchangeOtherError e =>
        {| ts_result := inl e; ts_cache := tokenInfo; ts_exchanges := 1 |}
    end in
  match tokenInfo with
  | Some ti =>
      if (now <? expiresAt ti)%Z
      then {| ts_result := inr (accessToken ti); ts_cache := tokenInfo; ts_exchanges := 0 |}
      else renew
  | None => renew
  end.

(** The test [this.tokenInfo && Date.now() < this.tokenInfo.expiresAt]. *)
Definition token_valid (tokenInfo : option TokenInfo) (now : Z) : bool :=
  match tokenInfo with
  | Some ti => (now <? expiresAt ti)%Z
  | None => false
  end.

(* ------------------------------------------------------------------------- *)
(** ** [SpotifyServer.executeAppleScript] *)

(** How [osascript.execute] calls back: with an error whose [message] may be
    absent, or with a result, [None] standing for a falsy one. *)
Inductive ScriptOutcome :=
| ScriptError (message : option string)
| ScriptResult (result : option string).

Definition js_truthy_string (s : option string) : bool :=
  match s with Some m => negb (String.eqb m EmptyString) | None => false end.

Definition applescript_settle (o : ScriptOutcome) : JsError + string :=
  match o with
  | ScriptError message =>
      if js_truthy_string message &&
         match message with Some m => includes m "-1728" | None => false end
      then inl (McpError InternalError "Spotify application not found or not running.")
      else inl (McpError InternalError
                  ("AppleScript execution failed: " ++
                   match message with
                   | Some m => if String.eqb m EmptyString then "Unknown error" else m
                   | None => "Unknown error"
                   end))
  | ScriptResult result =>
      match result with
      | Some r => if String.eqb r EmptyString then inr "Success" else inr r
      | None => inr "Success"
      end
  end.

(* ------------------------------------------------------------------------- *)
(** ** Effects: HTTP requests and scripts, with exceptions

    [SpotifyApi.makeRequest] (token acquisition included) and
    [osascript.execute] are the two effects; the world answers them, and the
    trace records them in order. *)

#[local] Set Warnings "-register-all".

Inductive json :=
| JNull
| JBool (b : bool)
| JNum (z : Z)
| JStr (s : string)
| JArr (l : list json)
| JObj (o : list (string * json)).

Inductive Event :=
| EvHttp (method : string) (path : string)
| EvScript (script : string).

Record World := {
  http_response : string -> string -> JsError + json;
  script_outcome : string -> ScriptOutcome
}.

Definition M (A : Type) := World -> list Event -> (JsError + A) * list Event.

Definition ret {A} (a : A) : M A := fun _ tr => (inr a, tr).
Definition throw {A} (e : JsError) : M A := fun _ tr => (inl e, tr).
Definition bind {A B} (m : M A) (k : A -> M B) : M B :=
  fun w tr => match m w tr with
              | (inr a, tr') => k a w tr'
              | (inl e, tr') => (inl e, tr')
              end.
Definition catch {A} (m : M A) (h : JsError -> M A) : M A :=
  fun w tr => match m w tr with
              | (inl e, tr') => h e w tr'
              | r => r
              end.

Notation "x <- m ;; k" := (bind m (fun x => k)) (at level 61, m at next level, right associativity).

(** [this.api.makeRequest(path, method)]. *)
Definition makeRequest (path : string) (method : string) : M json :=
  fun w tr => (http_response w method path, app tr [EvHttp method path]).

(** [this.executeAppleScript(script)]. *)
Definition executeAppleScript (script : string) : M string :=
  fun w tr => (applescript_settle (script_outcome w script), app tr [EvScript script]).

Definition invalid_params {A} (msg : string) : M A := throw (McpError InvalidParams msg).

(* ------------------------------------------------------------------------- *)
(** ** Domain handlers *)

(** JS falsiness of an optional string ([undefined] or [""]). *)
Definition falsy_string (s : option string) : bool := negb (js_truthy_string s).

Definition join_comma (l : list string) : string := String.concat "," l.

(** [...(v !== undefined && { k: v })] in a query-parameter object literal:
    the property is there exactly when the value is defined. *)
Definition spread_param (k : string) (v : option scalar) : js_object (option scalar) :=
  match v with Some x => [(k, Some x)] | None => [] end.

(** The same spread in a request body. *)
Definition spread_field (k : string) (v : option json) : js_object json :=
  match v with Some x => [(k, x)] | None => [] end.

(** The arguments of a [this.api.makeRequest(path, method, data)] call. *)
Record ApiRequest := { req_path : string; req_method : string; req_data : option json }.

Module ArtistsHandler.

Definition getArtist (id : string) : M json :=
  makeRequest ("/artists/" ++ extractArtistId id) "GET".

Definition getMultipleArtists (ids : list string) : M json :=
  if Nat.eqb (length ids) 0 then invalid_params "At least one artist ID must be provided"
  else if Nat.ltb 50 (length ids) then invalid_params "Maximum of 50 artist IDs allowed"
  else makeRequest ("/artists?ids=" ++ join_comma (map extractArtistId ids)) "GET".

Definition getArtistTopTracks (id : string) (market : option string) : M json :=
  let artistId := extractArtistId id in
  if falsy_string market
  then invalid_params "market parameter is required for top tracks"
  else makeRequest ("/artists/" ++ artistId ++ "/top-tracks?market=" ++
                    match market with Some m => m | None => "undefined" end) "GET".

Definition getArtistAlbums (id : string) (limit offset : option Z)
    (include_groups : option (list string)) : M json :=
  let artistId := extractArtistId id in
  let limit := match limit with Some l => l | None => 20%Z end in
  let offset := match offset with Some o => o | None => 0%Z end in
  if (limit <? 1)%Z || (50 <? limit)%Z then invalid_params "Limit must be between 1 and 50"
  else if (offset <? 0)%Z then invalid_params "Offset must be non-negative"
  else
    let params := [("limit", Some (SNum limit)); ("offset", Some (SNum offset));
                   ("include_groups", option_map (fun g => SStr (join_comma g)) include_groups)] in
    makeRequest ("/artists/" ++ artistId ++ "/albums" ++ buildQueryString params) "GET".

Definition getArtistRelatedArtists (id : string) : M json :=
  let artistId := extractArtistId id in
  makeRequest ("/artists/" ++ artistId ++ "/related-artists") "GET".

End ArtistsHandler.

Module AlbumsHandler.

Definition getMultipleAlbums (ids : list string) : M json :=
  if Nat.eqb (length ids) 0 then invalid_params "At least one album ID must be provided"
  else if Nat.ltb 20 (length ids) then invalid_params "Maximum of 20 album IDs allowed"
  else makeRequest ("/albums?ids=" ++ join_comma (map extractAlbumId ids)) "GET".

Definition getAlbumTracks (id : string) (limit offset : option Z) : M json :=
  let albumId := extractAlbumId id in
  let limit := match limit with Some l => l | None => 20%Z end in
  let offset := match offset with Some o => o | None => 0%Z end in
  if (limit <? 1)%Z || (50 <? limit)%Z then invalid_params "Limit must be between 1 and 50"
  else if (offset <? 0)%Z then invalid_params "Offset must be non-negative"
  else
    let params := [("limit", Some (SNum limit)); ("offset", Some (SNum offset))] in
    makeRequest ("/albums/" ++ albumId ++ "/tracks" ++ buildQueryString params) "GET".

Definition getNewReleases (country : option string) (limit offset : option Z) : M json :=
  let limit := match limit with Some l => l | None => 20%Z end in
  let offset := match offset with Some o => o | None => 0%Z end in
  if (limit <? 1)%Z || (50 <? limit)%Z then invalid_params "Limit must be between 1 and 50"
  else if (offset <? 0)%Z then invalid_params "Offset must be non-negative"
  else
    let params := [("country", option_map SStr country); ("limit", Some (SNum limit));
                   ("offset", Some (SNum offset))] in
    makeRequest ("/browse/new-releases" ++ buildQueryString params) "GET".

Definition getAlbum (id : string) : M json :=
  let albumId := extractAlbumId id in
  makeRequest ("/albums/" ++ albumId) "GET".

End AlbumsHandler.

Module AudiobooksHandler.

Definition getMultipleAudiobooks (ids : list string) (market : option string) : M json :=
  if Nat.eqb (length ids) 0 then invalid_params "At least one audiobook ID must be provided"
  else if Nat.ltb 50 (length ids) then invalid_params "Maximum of 50 audiobook IDs allowed"
  else
    let params := [("market", option_map SStr market)] in
    makeRequest ("/audiobooks?ids=" ++ join_comma (map extractAudiobookId ids) ++
                 buildQueryString params) "GET".

Definition getAudiobook (id : string) (market : option string) : M json :=
  let audiobookId := extractAudiobookId id in
  let params := [("market", option_map SStr market)] in
  makeRequest ("/audiobooks/" ++ audiobookId ++ buildQueryString params) "GET".

(** [{ market, ...(limit !== undefined && { limit }), ...(offset !== undefined && { offset }) }] *)
Definition getAudiobookChapters (id : string) (market : option string) (limit offset : option Z)
  : M json :=
  let audiobookId := extractAudiobookId id in
  let params := app [("market", option_map SStr market)]
                    (app (spread_param "limit" (option_map SNum limit))
                         (spread_param "offset" (option_map SNum offset))) in
  makeRequest ("/audiobooks/" ++ audiobookId ++ "/chapters" ++ buildQueryString params) "GET".

End AudiobooksHandler.

Module TracksHandler.

Definition search (query type : string) (limit : option Z) : M json :=
  let limit := match limit with Some l => l | None => 20%Z end in
  if (limit <? 1)%Z || (50 <? limit)%Z then invalid_params "Limit must be between 1 and 50"
  else
    let params := [("q", Some (SStr (encodeURIComponent query))); ("type", Some (SStr type));
                   ("limit", Some (SNum limit))] in
    makeRequest ("/search" ++ buildQueryString params) "GET".

Definition getRecommendations (seed_tracks seed_artists seed_genres : option (list string))
    (limit : option Z) : M json :=
  let seed_tracks := match seed_tracks with Some l => l | None => [] end in
  let seed_artists := match seed_artists with Some l => l | None => [] end in
  let seed_genres := match seed_genres with Some l => l | None => [] end in
  let limit := match limit with Some l => l | None => 20%Z end in
  if Nat.eqb (length seed_tracks + length seed_artists + length seed_genres) 0
  then invalid_params "At least one seed (tracks, artists, or genres) must be provided"
  else if (limit <? 1)%Z || (100 <? limit)%Z then invalid_params "Limit must be between 1 and 100"
  else
    let trackIds := map extractTrackId seed_tracks in
    let artistIds := map (extract_by_prefix "spotify:artist:") seed_artists in
    let params :=
      [("seed_tracks", if Nat.eqb (length trackIds) 0 then None else Some (SStr (join_comma trackIds)));
       ("seed_artists", if Nat.eqb (length artistIds) 0 then None else Some (SStr (join_comma artistIds)));
       ("seed_genres", if Nat.eqb (length seed_genres) 0 then None else Some (SStr (join_comma seed_genres)));
       ("limit", Some (SNum limit))] in
    makeRequest ("/recommendations" ++ buildQueryString params) "GET".

Definition getTrack (id : string) : M json :=
  let trackId := extractTrackId id in
  makeRequest ("/tracks/" ++ trackId) "GET".

Definition getAvailableGenres : M json :=
  makeRequest "/recommendations/available-genre-seeds" "GET".

End TracksHandler.

(** [src/handlers/playlists.ts], first class body (the second one repeats
    its first four methods). The reading methods are written in the request
    monad; the writing ones, which check nothing, as the [makeRequest] call
    they make, with its method and body. *)
Module PlaylistsHandler.

Definition getPlaylist (id : string) (market : option string) : M json :=
  let playlistId := extractPlaylistId id in
  let params := [("market", option_map SStr market)] in
  makeRequest ("/playlists/" ++ playlistId ++ buildQueryString params) "GET".

(** [{ market, ...(limit !== undefined && { limit }), ...(offset ...), ...(fields ...) }] *)
Definition listing_params (market : option string) (limit offset : option Z)
    (fields : option string) : js_object (option scalar) :=
  app [("market", option_map SStr market)]
      (app (spread_param "limit" (option_map SNum limit))
           (app (spread_param "offset" (option_map SNum offset))
                (spread_param "fields" (option_map SStr fields)))).

Definition getPlaylistTracks (id : string) (market : option string) (limit offset : option Z)
    (fields : option string) : M json :=
  let playlistId := extractPlaylistId id in
  let params := listing_params market limit offset fields in
  makeRequest ("/playlists/" ++ playlistId ++ "/tracks" ++ buildQueryString params) "GET".

Definition getPlaylistItems (id : string) (market : option string) (limit offset : option Z)
    (fields : option string) : M json :=
  let playlistId := extractPlaylistId id in
  let params := listing_params market limit offset fields in
  makeRequest ("/playlists/" ++ playlistId ++ "/items" ++ buildQueryString params) "GET".

Definition modifyPlaylist (id : string) (name : option string) (isPublic collaborative : option bool)
    (description : option string) : ApiRequest :=
  let playlistId := extractPlaylistId id in
  let data := JObj (app (spread_field "name" (option_map JStr name))
                   (app (spread_field "public" (option_map JBool isPublic))
                   (app (spread_field "collaborative" (option_map JBool collaborative))
                        (spread_field "description" (option_map JStr description))))) in
  {| req_path := "/playlists/" ++ playlistId; req_method := "PUT"; req_data := Some data |}.

Definition addTracksToPlaylist (id : string) (uris : list string) (position : option Z) : ApiRequest :=
  let playlistId := extractPlaylistId id in
  let data := JObj (("uris", JArr (map JStr uris)) :: spread_field "position" (option_map JNum position)) in
  {| req_path := "/playlists/" ++ playlistId ++ "/tracks"; req_method := "POST"; req_data := Some data |}.

Definition removeTracksFromPlaylist (id : string) (tracks : list json) (snapshot_id : option string)
  : ApiRequest :=
  let playlistId := extractPlaylistId id in
  let data := JObj (("tracks", JArr tracks) :: spread_field "snapshot_id" (option_map JStr snapshot_id)) in
  {| req_path := "/playlists/" ++ playlistId ++ "/tracks"; req_method := "DELETE"; req_data := Some data |}.

End PlaylistsHandler.

(* ------------------------------------------------------------------------- *)
(** ** Script templates of the desktop bridge *)

Definition dq : string := String (ascii_of_nat 34) EmptyString.
Definition bs : string := String (ascii_of_nat 92) EmptyString.
Definition nl : string := String (ascii_of_nat 10) EmptyString.

(** A template literal spanning several lines. *)
Definition template_lines (lines : list string) : string := String.concat nl lines.

Definition script_playpause : string :=
  "tell application " ++ dq ++ "Spotify" ++ dq ++ " to playpause".
Definition script_next : string :=
  "tell application " ++ dq ++ "Spotify" ++ dq ++ " to next track".
Definition script_previous : string :=
  "tell application " ++ dq ++ "Spotify" ++ dq ++ " to previous track".

Definition script_current_track : string :=
  template_lines
    [ EmptyString;
      "              tell application " ++ dq ++ "Spotify" ++ dq;
      "                if player state is playing or player state is paused then";
      "                  set trackName to name of current track";
      "                  set artistName to artist of current track";
      "                  set albumName to album of current track";
      "                  return " ++ dq ++ "Track: " ++ dq ++ " & trackName & " ++ dq ++ bs ++
        "nArtist: " ++ dq ++ " & artistName & " ++ dq ++ bs ++ "nAlbum: " ++ dq ++ " & albumName";
      "                else";
      "                  return " ++ dq ++ "Spotify is not playing or paused." ++ dq;
      "                end if";
      "              end tell";
      "            " ].

Definition script_play_track (uri : string) : string :=
  template_lines
    [ EmptyString;
      "              set currentAppID to " ++ dq ++ dq;
      "              try";
      "                tell application " ++ dq ++ "System Events" ++ dq;
      "                  set frontApp to first application process whose frontmost is true";
      "                  set currentAppID to bundle identifier of frontApp";
      "                end tell";
      "              end try";
      "              ";
      "              tell application " ++ dq ++ "Spotify" ++ dq ++ " to play track " ++ dq ++ uri ++ dq;
      "              ";
      "              delay 1.0 -- Keep 1 second delay";
      "              ";
      "              if currentAppID is not " ++ dq ++ dq ++ " then";
      "                try";
      "                  -- Activate using the bundle identifier";
      "                  tell application id currentAppID to activate";
      "                end try";
      "              end if";
      "            " ].

(* ------------------------------------------------------------------------- *)
(** ** The tool registry and [validateArgs] *)

(** Each tool of the listing with the [required] array of its input schema
    (absent for [get_new_releases] and [get_current_user_playlists]). *)
Definition tool_definitions : list (string * list string) :=
  [ ("get_access_token", []);
    ("search", ["query"; "type"]);
    ("get_artist", ["id"]);
    ("get_multiple_artists", ["ids"]);
    ("get_artist_top_tracks", ["id"]);
    ("get_artist_related_artists", ["id"]);
    ("get_artist_albums", ["id"]);
    ("get_album", ["id"]);
    ("get_album_tracks", ["id"]);
    ("get_multiple_albums", ["ids"]);
    ("get_track", ["id"]);
    ("get_available_genres", []);
    ("get_new_releases", []);
    ("get_recommendations", []);
    ("get_audiobook", ["id"]);
    ("get_multiple_audiobooks", ["ids"]);
    ("get_audiobook_chapters", ["id"]);
    ("get_playlist", ["id"]);
    ("get_playlist_tracks", ["id"]);
    ("get_playlist_items", ["id"]);
    ("modify_playlist", ["id"]);
    ("add_tracks_to_playlist", ["id"; "uris"]);
    ("remove_tracks_from_playlist", ["id"; "tracks"]);
    ("get_current_user_playlists", []);
    ("spotify_play_pause", []);
    ("spotify_next", []);
    ("spotify_previous", []);
    ("spotify_get_current_track", []);
    ("spotify_play_track", ["uri"]) ].

Definition declared_names : list string := map fst tool_definitions.

(** Properties every plain object inherits from [Object.prototype]; the [in]
    operator sees them. *)
Definition object_prototype_keys : list string :=
  [ "constructor"; "hasOwnProperty"; "isPrototypeOf"; "propertyIsEnumerable";
    "toLocaleString"; "toString"; "valueOf"; "__proto__"; "__defineGetter__";
    "__defineSetter__"; "__lookupGetter__"; "__lookupSetter__" ].

(** [field in args]. *)
Definition has_key (field : string) (args : js_object json) : bool :=
  existsb (fun kv => String.eqb field (fst kv)) args ||
  existsb (String.eqb field) object_prototype_keys.

(** [args.field] on a JSON object. *)
Fixpoint lookup (field : string) (args : js_object json) : option json :=
  match args with
  | [] => None
  | (k, v) :: rest => if String.eqb field k then Some v else lookup field rest
  end.

(** [SpotifyServer.validateArgs]. *)
Definition validateArgs (args : option (js_object json)) (requiredFields : list string)
  : JsError + js_object json :=
  match args with
  | None => inl (McpError InvalidParams "Arguments are required")
  | Some a =>
      match find (fun field => negb (has_key field a)) requiredFields with
      | Some field => inl (McpError InvalidParams ("Missing required field: " ++ field))
      | None => inr a
      end
  end.

(** [request.params.arguments || {}]. *)
Definition or_empty (args : option (js_object json)) : option (js_object json) :=
  match args with None => Some [] | Some a => Some a end.

(* ------------------------------------------------------------------------- *)
(** ** The [CallToolRequestSchema] handler *)

Inductive handler := Artists | Albums | Tracks | Audiobooks | Playlists.

Definition handler_field (h : handler) : string :=
  match h with
  | Artists => "artistsHandler"
  | Albums => "albumsHandler"
  | Tracks => "tracksHandler"
  | Audiobooks => "audiobooksHandler"
  | Playlists => "playlistsHandler"
  end.

(** The methods the handler classes define ([src/handlers/*.ts]; for the
    playlists handler, the fuller of the two class bodies of playlists.ts,
    the other one defining a subset of these). *)
Definition handler_methods (h : handler) : list string :=
  match h with
  | Artists => ["getArtist"; "getMultipleArtists"; "getArtistTopTracks";
                "getArtistRelatedArtists"; "getArtistAlbums"]
  | Albums => ["getAlbum"; "getMultipleAlbums"; "getAlbumTracks"; "getNewReleases"]
  | Tracks => ["getTrack"; "search"; "getRecommendations"; "getAvailableGenres"]
  | Audiobooks => ["getAudiobook"; "getMultipleAudiobooks"; "getAudiobookChapters"]
  | Playlists => ["getPlaylist"; "getPlaylistTracks"; "getPlaylistItems"; "modifyPlaylist";
                  "addTracksToPlaylist"; "removeTracksFromPlaylist"]
  end.

(** What a [case] of the switch goes on to do once its arguments are
    validated. *)
Inductive Route :=
| RGetToken                                                   (** [this.authManager.getAccessToken()] *)
| RMethod (h : handler) (meth : string) (args : option (js_object json))
                                                              (** [await this.<h>.<meth>(args)] *)
| RScript (script : string)                                   (** [this.executeAppleScript(script)] *)
| RPlayTrack (args : js_object json).                         (** the [spotify_play_track] case *)

Definition with_args (args : option (js_object json)) (requiredFields : list string)
    (k : js_object json -> Route) : JsError + Route :=
  match validateArgs args requiredFields with
  | inl e => inl e
  | inr a => inr (k a)
  end.

(** The [switch (request.params.name)] up to the call it makes. *)
Definition dispatch (name : string) (args : option (js_object json)) : JsError + Route :=
  if String.eqb name "get_access_token" then inr RGetToken
  else if String.eqb name "search" then
    with_args args ["query"; "type"] (fun a => RMethod Tracks "search" (Some a))
  else if String.eqb name "get_artist" then
    with_args args ["id"] (fun a => RMethod Artists "getArtist" (Some a))
  else if String.eqb name "get_multiple_artists" then
    with_args args ["ids"] (fun a => RMethod Artists "getMultipleArtists" (Some a))
  else if String.eqb name "get_artist_top_tracks" then
    with_args args ["id"] (fun a => RMethod Artists "getArtistTopTracks" (Some a))
  else if String.eqb name "get_artist_related_artists" then
    with_args args ["id"] (fun a => RMethod Artists "getArtistRelatedArtists" (Some a))
  else if String.eqb name "get_artist_albums" then
    with_args args ["id"] (fun a => RMethod Artists "getArtistAlbums" (Some a))
  else if String.eqb name "get_album" then
    with_args args ["id"] (fun a => RMethod Albums "getAlbum" (Some a))
  else if String.eqb name "get_album_tracks" then
    with_args args ["id"] (fun a => RMethod Albums "getAlbumTracks" (Some a))
  else if String.eqb name "get_multiple_albums" then
    with_args args ["ids"] (fun a => RMethod Albums "getMultipleAlbums" (Some a))
  else if String.eqb name "get_track" then
    with_args args ["id"] (fun a => RMethod Tracks "getTrack" (Some a))
  else if String.eqb name "get_available_genres" then
    inr (RMethod Tracks "getAvailableGenres" None)
  else if String.eqb name "get_new_releases" then
    with_args (or_empty args) [] (fun a => RMethod Albums "getNewReleases" (Some a))
  else if String.eqb name "get_recommendations" then
    with_args (or_empty args) [] (fun a => RMethod Tracks "getRecommendations" (Some a))
  else if String.eqb name "get_audiobook" then
    with_args args ["id"] (fun a => RMethod Audiobooks "getAudiobook" (Some a))
  else if String.eqb name "get_multiple_audiobooks" then
    with_args args ["ids"] (fun a => RMethod Audiobooks "getMultipleAudiobooks" (Some a))
  else if String.eqb name "get_audiobook_chapters" then
    with_args args ["id"] (fun a => RMethod Audiobooks "getAudiobookChapters" (Some a))
  else if String.eqb name "get_playlist" then
    with_args args ["id"] (fun a => RMethod Playlists "getPlaylist" (Some a))
  else if String.eqb name "get_playlist_tracks" then
    with_args args ["id"] (fun a => RMethod Playlists "getPlaylistTracks" (Some a))
  else if String.eqb name "get_playlist_items" then
    with_args args ["id"] (fun a => RMethod Playlists "getPlaylistItems" (Some a))
  else if String.eqb name "modify_playlist" then
    with_args args ["id"] (fun a => RMethod Playlists "modifyPlaylist" (Some a))
  else if String.eqb name "add_tracks_to_playlist" then
    with_args args ["id"; "uris"] (fun a => RMethod Playlists "addTracksToPlaylist" (Some a))
  else if String.eqb name "remove_tracks_from_playlist" then
    with_args args ["id"; "tracks"] (fun a => RMethod Playlists "removeTracksFromPlaylist" (Some a))
  else if String.eqb name "get_current_user_playlists" then
    with_args (or_empty args) [] (fun a => RMethod Playlists "getCurrentUserPlaylists" (Some a))
  else if String.eqb name "spotify_play_pause" then inr (RScript script_playpause)
  else if String.eqb name "spotify_next" then inr (RScript script_next)
  else if String.eqb name "spotify_previous" then inr (RScript script_previous)
  else if String.eqb name "spotify_get_current_track" then inr (RScript script_current_track)
  else if String.eqb name "spotify_play_track" then
    with_args args ["uri"] RPlayTrack
  else inl (McpError MethodNotFound ("Unknown tool: " ++ name)).

Definition lift {A} (r : JsError + A) : M A :=
  match r with inl e => throw e | inr a => ret a end.

Definition play_track_uri_error : string :=
  "Invalid Spotify track URI format. Expected " ++ dq ++ "spotify:track:TRACK_ID" ++ dq ++ ".".

Section Dispatch.

(** [this.authManager.getAccessToken()], the bodies of the handler methods
    that exist, and [JSON.stringify(result, null, 2)]. *)
Variable get_token : M string.
Variable method_body : handler -> string -> option (js_object json) -> M json.
Variable stringify_pretty : json -> string.

(** The [spotify_play_track] case after [validateArgs]. *)
Definition play_track (args : js_object json) : M string :=
  match lookup "uri" args with
  | Some (JStr uri) =>
      if String.eqb uri EmptyString || negb (startsWith uri "spotify:track:")
      then invalid_params play_track_uri_error
      else executeAppleScript (script_play_track uri)
  | None | Some JNull | Some (JBool false) | Some (JNum 0) =>
      invalid_params play_track_uri_error
  | Some _ => throw (OtherError "TypeError" "args.uri.startsWith is not a function")
  end.

Definition run_route (r : Route) : M string :=
  match r with
  | RGetToken => get_token
  | RMethod h meth args =>
      if existsb (String.eqb meth) (handler_methods h)
      then result <- method_body h meth args ;; ret (stringify_pretty result)
      else throw (OtherError "TypeError"
                    ("this." ++ handler_field h ++ "." ++ meth ++ " is not a function"))
  | RScript script => executeAppleScript script
  | RPlayTrack args => play_track args
  end.

(** The whole request handler: the switch inside its [try]/[catch]. *)
Definition call_tool (name : string) (args : option (js_object json)) : M string :=
  catch (r <- lift (dispatch name args) ;; run_route r)
        (fun error =>
           match error with
           | McpError _ _ => throw error
           | OtherError _ message =>
               throw (McpError InternalError
                        ("Unexpected error processing tool " ++ name ++ ": " ++ message))
           end).

End Dispatch.

(** The [try] block of the request handler, before its [catch]. *)
Definition tool_body (get_token : M string)
    (method_body : handler -> string -> option (js_object json) -> M json)
    (stringify_pretty : json -> string) (name : string) (args : option (js_object json))
  : M string :=
  r <- lift (dispatch name args) ;; run_route get_token method_body stringify_pretty r.

(* ------------------------------------------------------------------------- *)
(** ** [SpotifyApi.makeRequest] with its token step *)

Definition BASE_URL : string := "https://api.spotify.com/v1".

(** How the [axios(...)] call to the API settles: with [response.data], with
    an [AxiosError] (the text of [error.response?.data?.error?.message] when
    it is neither [null] nor [undefined], and [error.message]), or with any
    other rejection. *)
Inductive AxiosOutcome :=
| AxiosResponse (data : json)
| AxiosFailure (spotify_message : option string) (message : string)
| AxiosOtherFailure (e : JsError).

(** A request as it leaves the process: method, URL, the [Authorization]
    header and the body. *)
Record SentRequest := {
  sent_method : string;
  sent_url : string;
  sent_authorization : string;
  sent_data : option json
}.

Record RequestStep := {
  rs_result : JsError + json;     (** resolved data or thrown error *)
  rs_cache : option TokenInfo;    (** [authManager.tokenInfo] afterwards *)
  rs_exchanges : nat;             (** token-endpoint calls made *)
  rs_sent : list SentRequest      (** API requests sent *)
}.

(** [makeRequest(path, method, data)]: [await getAccessToken()], then the
    [axios] call; the [catch] turns an [AxiosError] into an [McpError] and
    rethrows anything else, the token errors included (those are [McpError]s
    or the exchange's own non-axios rejections). *)
Definition api_makeRequest (tokenInfo : option TokenInfo) (now : Z) (exchange : ExchangeOutcome)
    (now_after : Z) (req : ApiRequest) (outcome : AxiosOutcome) : RequestStep :=
  let t := getAccessToken tokenInfo now exchange now_after in
  match ts_result t with
  | inl e => {| rs_result := inl e; rs_cache := ts_cache t; rs_exchanges := ts_exchanges t;
                rs_sent := [] |}
  | inr token =>
      let sent := {| sent_method := req_method req; sent_url := BASE_URL ++ req_path req;
                     sent_authorization := "Bearer " ++ token; sent_data := req_data req |} in
      {| rs_result :=
           match outcome with
           | AxiosResponse data => inr data
           | AxiosFailure spotify_message message =>
               inl (McpError InternalError
                      ("Spotify API error: " ++
                       match spotify_message with Some m => m | None => message end))
           | AxiosOtherFailure e => inl e
           end;
         rs_cache := ts_cache t; rs_exchanges := ts_exchanges t; rs_sent := [sent] |}
  end.

(* ------------------------------------------------------------------------- *)
(** ** Reading of the query builder used by the properties *)

(** The pairs that survive the [undefined] filter, stringified, in order. *)
Fixpoint present_pairs (l : list (string * option scalar)) : list (string * string) :=
  match l with
  | [] => []
  | (k, Some v) :: l' => (k, scalar_toString v) :: present_pairs l'
  | (k, None) :: l' => present_pairs l'
  end.

(** [""] for no pair, else ["?"] and the encoded [key=value] pairs joined by
    ["&"]. *)
Definition query_of_pairs (ps : list (string * string)) : string :=
  match ps with
  | [] => EmptyString
  | _ => "?" ++ String.concat "&" (map (fun kv => form_encode (fst kv) ++ "=" ++ form_encode (snd kv)) ps)
  end.

(** Reading one character back from the head of a form-urlencoded string
    (the inverse of [form_encode_char] on the strings it produces). *)
Definition hex_val (a : ascii) : option nat :=
  let n := nat_of_ascii a in
  if Nat.leb 48 n && Nat.leb n 57 then Some (n - 48)
  else if Nat.leb 65 n && Nat.leb n 70 then Some (n - 55)
  else None.

Definition form_decode_first (s : string) : option (ascii * string) :=
  match s with
  | EmptyString => None
  | String a r =>
      if Ascii.eqb a "+" then Some (" "%char, r)
      else if Ascii.eqb a "%" then
        match r with
        | String h1 (String h2 r1) =>
            match hex_val h1, hex_val h2 with
            | Some x, Some y =>
                let b1 := 16 * x + y in
                if Nat.ltb b1 128 then Some (ascii_of_nat b1, r1)
                else match r1 with
                     | String p (String h3 (String h4 r2)) =>
                         match hex_val h3, hex_val h4 with
                         | Some z, Some t =>
                             if Ascii.eqb p "%"
                             then Some (ascii_of_nat ((b1 - 192) * 64 + (16 * z + t - 128)), r2)
                             else None
                         | _, _ => None
                         end
                     | _ => None
                     end
            | _, _ => None
            end
        | _ => None
        end
      else Some (a, r)
  end.

(** The request path [search] builds for a valid limit. *)
Definition search_path (query type : string) (limit : Z) : string :=
  "/search?q=" ++ form_encode (encodeURIComponent query) ++ "&type=" ++ form_encode type ++
  "&limit=" ++ form_encode (string_of_Z limit).

(** A handler call that throws [InvalidParams] with the trace untouched. *)
Definition rejects_invalid (m : M json) : Prop :=
  forall w tr, exists msg, m w tr = (inl (McpError InvalidParams msg), tr).

(** A handler call that makes exactly one GET and settles with its response. *)
Definition issues_one_get (m : M json) : Prop :=
  forall w tr, exists path, m w tr = (http_response w "GET" path, app tr [EvHttp "GET" path]).

Definition default_Z (o : option Z) (d : Z) : Z := match o with Some x => x | None => d end.

Definition seeds_length (o : option (list string)) : nat :=
  match o with Some l => length l | None => 0 end.

(** Reading a query string back, as a form-urlencoded parser does: strip the
    ["?"], split on ["&"], split each piece at its ["="] and decode both
    sides. *)
Fixpoint has_char (c : ascii) (s : string) : bool :=
  match s with
  | EmptyString => false
  | String a s' => Ascii.eqb a c || has_char c s'
  end.

Fixpoint form_decode_fuel (fuel : nat) (s : string) : option string :=
  match s with
  | EmptyString => Some EmptyString
  | String _ _ =>
      match fuel with
      | O => None
      | S f =>
          match form_decode_first s with
          | Some (c, r) => option_map (String c) (form_decode_fuel f r)
          | None => None
          end
      end
  end.

Definition form_decode (s : string) : option string := form_decode_fuel (String.length s) s.

Definition parse_pair (piece : string) : option (string * string) :=
  match split_on "=" piece with
  | [k; v] =>
      match form_decode k, form_decode v with
      | Some k', Some v' => Some (k', v')
      | _, _ => None
      end
  | _ => None
  end.

Fixpoint parse_pairs (pieces : list string) : option (list (string * string)) :=
  match pieces with
  | [] => Some []
  | p :: ps =>
      match parse_pair p, parse_pairs ps with
      | Some kv, Some kvs => Some (kv :: kvs)
      | _, _ => None
      end
  end.

Definition parse_query (q : string) : option (list (string * string)) :=
  match q with
  | EmptyString => Some []
  | String "?" r => parse_pairs (split_on "&" r)
  | _ => None
  end.

(* ========================================================================= *)
(** * Properties *)

(** ** Identifier normalisation *)

Lemma prefix_app_self (p s : string) : String.prefix p (p ++ s) = true.
Proof.
  induction p as [|a p IH]; simpl.
  - destruct s; reflexivity.
  - destruct (ascii_dec a a); [exact IH | congruence].
Qed.

Lemma string_app_assoc (a b c : string) : (a ++ b) ++ c = a ++ (b ++ c).
Proof. induction a as [|x a IH]; simpl; [reflexivity | now rewrite IH]. Qed.

Lemma split_on_colon_app (s rest : string) :
  has_colon s = false -> split_on ":" (s ++ String ":" rest) = s :: split_on ":" rest.
Proof.
  induction s as [|a s IH]; simpl; intros H.
  - reflexivity.
  - apply orb_false_iff in H as [Ha Hs]. rewrite Ha, (IH Hs). reflexivity.
Qed.

Lemma split_on_nonempty (c : ascii) (s : string) : split_on c s <> [].
Proof.
  induction s as [|a s IH]; simpl; [discriminate|].
  destruct (Ascii.eqb a c); [discriminate|].
  destruct (split_on c s); discriminate.
Qed.

Lemma first_segment_no_colon (X : string) : has_colon X = false -> first_segment X = X.
Proof.
  unfold first_segment. induction X as [|a X IH]; simpl; intros H; [reflexivity|].
  apply orb_false_iff in H as [Ha Hs]. rewrite Ha.
  specialize (IH Hs). destruct (split_on ":" X) as [|h t]; simpl in *; congruence.
Qed.

(** C2 (amended). For a handler kind [k] (colon-free, as the five kinds of
    the handlers are), the extractor of prefix ["spotify:" ++ k ++ ":"] maps
    [prefix ++ X] to the first colon-delimited segment of [X] (that is, the
    third colon-delimited segment of the whole string), which is [X] itself
    when [X] has no colon; every string without that prefix is returned
    unchanged. *)
Theorem extract_by_prefix_spec (kind : string) (Hkind : has_colon kind = false) :
  (forall X, extract_by_prefix (kind_prefix kind) (kind_prefix kind ++ X) = first_segment X) /\
  (forall X, has_colon X = false -> extract_by_prefix (kind_prefix kind) (kind_prefix kind ++ X) = X) /\
  (forall id, startsWith id (kind_prefix kind) = false -> extract_by_prefix (kind_prefix kind) id = id).
Proof.
  assert (Hx : forall X, extract_by_prefix (kind_prefix kind) (kind_prefix kind ++ X) = first_segment X).
  { intros X. unfold extract_by_prefix, startsWith.
    rewrite prefix_app_self. unfold kind_prefix.
    rewrite !string_app_assoc. simpl.
    rewrite (split_on_colon_app kind (X)) by exact Hkind. simpl.
    unfold first_segment. destruct (split_on ":" X) as [|h t] eqn:E.
    - exfalso. exact (split_on_nonempty _ _ E).
    - reflexivity. }
  split; [exact Hx|]. split.
  - intros X HX. rewrite Hx. now apply first_segment_no_colon.
  - intros id H. unfold extract_by_prefix. now rewrite H.
Qed.

Lemma extract_by_prefix_spec_witness :
  has_colon "artist" = false /\
  extractArtistId ("spotify:artist:" ++ "4iV5W9uYEdYUVa79Axb7Rh") = "4iV5W9uYEdYUVa79Axb7Rh".
Proof.
  split; [reflexivity|].
  exact (proj1 (proj2 (extract_by_prefix_spec "artist" eq_refl)) "4iV5W9uYEdYUVa79Axb7Rh" eq_refl).
Defined.

(** C2 (counterexample). ["spotify:artist:a:b"] has the expected prefix; the
    artists handler returns ["a"], which is neither the text ["a:b"] after the
    prefix nor the input. *)
Lemma extractArtistId_colon_counterexample :
  extractArtistId "spotify:artist:a:b" = "a" /\
  "a" <> "a:b" /\ "a" <> "spotify:artist:a:b".
Proof. split; [reflexivity | split; discriminate]. Qed.

(** ** Token cache *)

(** C3. With a cached token and [now < expiresAt], [getAccessToken] returns
    the cached token, makes no exchange call and leaves the cache as it was.
    With no cached token, or [now >= expiresAt], it makes exactly one exchange
    call and, when the call succeeds, returns the new token and caches
    [{accessToken; expiresAt = now + expires_in * 1000}], [now] being the
    clock read when the response is processed. *)
Theorem getAccessToken_cache_spec (tokenInfo : option TokenInfo) (now : Z)
    (exchange : ExchangeOutcome) (now_after : Z) :
  (forall ti, tokenInfo = Some ti -> (now < expiresAt ti)%Z ->
     getAccessToken tokenInfo now exchange now_after =
       {| ts_result := inr (accessToken ti); ts_cache := tokenInfo; ts_exchanges := 0 |}) /\
  ((tokenInfo = None \/ exists ti, tokenInfo = Some ti /\ (expiresAt ti <= now)%Z) ->
     ts_exchanges (getAccessToken tokenInfo now exchange now_after) = 1 /\
     forall access_token expires_in,
       exchange = ExchangeOk access_token expires_in ->
       ts_result (getAccessToken tokenInfo now exchange now_after) = inr access_token /\
       ts_cache (getAccessToken tokenInfo now exchange now_after) =
         Some {| accessToken := access_token; expiresAt := (now_after + expires_in * 1000)%Z |}).
Proof.
  split.
  - intros ti -> Hlt. simpl. apply Z.ltb_lt in Hlt. now rewrite Hlt.
  - intros Hren.
    destruct Hren as [-> | (ti & -> & Hle)]; simpl;
      [| destruct (Z.ltb_spec now (expiresAt ti)); [lia|]];
      (split; [destruct exchange; reflexivity | intros tok ei ->; split; reflexivity]).
Qed.

Lemma getAccessToken_cache_spec_witness :
  getAccessToken (Some {| accessToken := "old"; expiresAt := 5000 |}) 1000
                 (ExchangeOk "new" 3600) 7000 =
    {| ts_result := inr "old"; ts_cache := Some {| accessToken := "old"; expiresAt := 5000 |};
       ts_exchanges := 0 |} /\
  ts_cache (getAccessToken (Some {| accessToken := "old"; expiresAt := 5000 |}) 6000
                           (ExchangeOk "new" 3600) 7000) =
    Some {| accessToken := "new"; expiresAt := 3607000 |}.
Proof.
  split.
  - exact (proj1 (getAccessToken_cache_spec
                    (Some {| accessToken := "old"; expiresAt := 5000 |}) 1000
                    (ExchangeOk "new" 3600) 7000)
                  {| accessToken := "old"; expiresAt := 5000 |} eq_refl ltac:(simpl; lia)).
  - refine (proj2 (proj2 (proj2 (getAccessToken_cache_spec
                    (Some {| accessToken := "old"; expiresAt := 5000 |}) 6000
                    (ExchangeOk "new" 3600) 7000) _) "new" 3600%Z eq_refl)).
    right. eexists. split; [reflexivity | simpl; lia].
Defined.

(** C9. When a renewal is needed and the exchange call fails, the call
    rejects and the cache is left exactly as it was; an [AxiosError], the way
    [axios.post] rejects, becomes the [McpError] "Failed to get Spotify access
    token: ..." carrying the endpoint's [error] field or the transport
    message. *)
Theorem getAccessToken_failure_keeps_cache (tokenInfo : option TokenInfo) (now : Z)
    (exchange : ExchangeOutcome) (now_after : Z) :
  token_valid tokenInfo now = false ->
  (forall access_token expires_in, exchange <> ExchangeOk access_token expires_in) ->
  ts_cache (getAccessToken tokenInfo now exchange now_after) = tokenInfo /\
  ts_exchanges (getAccessToken tokenInfo now exchange now_after) = 1 /\
  (exists err, ts_result (getAccessToken tokenInfo now exchange now_after) = inl err) /\
  (forall response_error message, exchange = ExchangeAxiosError response_error message ->
     ts_result (getAccessToken tokenInfo now exchange now_after) =
       inl (McpError InternalError
              ("Failed to get Spotify access token: " ++
               match response_error with Some e => e | None => message end))).
Proof.
  intros Hinv Hfail.
  destruct tokenInfo as [ti|]; simpl in Hinv |- *; [rewrite Hinv|];
    (destruct exchange as [tok ei | resp msg | e]; simpl;
     [ exfalso; exact (Hfail tok ei eq_refl)
     | repeat split; [eexists; reflexivity|]; intros r m [= -> ->]; reflexivity
     | repeat split; [eexists; reflexivity|]; intros r m H; discriminate ]).
Qed.

Lemma getAccessToken_failure_keeps_cache_witness :
  ts_cache (getAccessToken (Some {| accessToken := "old"; expiresAt := 5000 |}) 6000
                           (ExchangeAxiosError (Some "invalid_client") "Request failed") 6100) =
    Some {| accessToken := "old"; expiresAt := 5000 |}.
Proof.
  refine (proj1 (getAccessToken_failure_keeps_cache _ 6000 _ 6100 _ _)).
  - reflexivity.
  - intros tok ei; discriminate.
Defined.

(** ** Query builder *)

Lemma insert_by_index_perm {V} (n : Z) (kv : string * V) (l : list (Z * (string * V))) :
  Permutation (map snd (insert_by_index n kv l)) (kv :: map snd l).
Proof.
  induction l as [|[m kv'] l IH]; simpl; [reflexivity|].
  destruct (n <? m)%Z; simpl; [reflexivity|].
  rewrite IH. apply perm_swap.
Qed.

Definition is_index_key {V} (kv : string * V) : bool :=
  match array_index (fst kv) with Some _ => true | None => false end.

Lemma index_entries_perm {V} (o : js_object V) :
  Permutation (map snd (index_entries o)) (filter is_index_key o).
Proof.
  induction o as [|[k v] o IH]; simpl; [reflexivity|].
  unfold is_index_key at 1; simpl.
  destruct (array_index k); [|exact IH].
  rewrite insert_by_index_perm. now constructor.
Qed.

Lemma filter_partition_perm {A} (f : A -> bool) (l : list A) :
  Permutation (app (filter f l) (filter (fun x => negb (f x)) l)) l.
Proof.
  induction l as [|x l IH]; simpl; [reflexivity|].
  destruct (f x); simpl.
  - now constructor.
  - rewrite <- Permutation_middle. now constructor.
Qed.

Lemma Object_entries_perm {V} (o : js_object V) : Permutation (Object_entries o) o.
Proof.
  unfold Object_entries. rewrite index_entries_perm.
  etransitivity; [|apply (filter_partition_perm is_index_key)].
  apply Permutation_app_head.
  erewrite filter_ext; [reflexivity|].
  intros [k v]. unfold is_index_key; simpl. now destruct (array_index k).
Qed.

Lemma Object_entries_no_index {V} (o : js_object V) :
  (forall k, In k (map fst o) -> array_index k = None) -> Object_entries o = o.
Proof.
  intros H. unfold Object_entries.
  assert (Hi : index_entries o = []).
  { induction o as [|[k v] o IH]; simpl; [reflexivity|].
    rewrite (H k (or_introl eq_refl)). apply IH. intros k' Hk'. apply H. now right. }
  rewrite Hi. simpl. clear Hi.
  induction o as [|[k v] o IH]; simpl; [reflexivity|].
  rewrite (H k (or_introl eq_refl)). f_equal.
  apply IH. intros k' Hk'. apply H. now right.
Qed.

Lemma existsb_key_absent (k : string) (acc : URLSearchParams) :
  ~ In k (map fst acc) -> existsb (fun kv => String.eqb k (fst kv)) acc = false.
Proof.
  intros H. apply not_true_is_false. intros Hex.
  apply existsb_exists in Hex as [[k' v'] [Hin Heq]].
  apply String.eqb_eq in Heq. simpl in Heq. subst k'.
  apply H. now apply (in_map fst) in Hin.
Qed.

Lemma present_pairs_keys (l : list (string * option scalar)) k :
  In k (map fst (present_pairs l)) -> In k (map fst l).
Proof.
  induction l as [|[k' [v|]] l IH]; simpl; [tauto| |]; intros H.
  - destruct H as [H|H]; [now left | right; auto].
  - right; auto.
Qed.

Lemma fold_set_distinct (l : list (string * option scalar)) (acc : URLSearchParams) :
  NoDup (map fst l) -> (forall k, In k (map fst l) -> ~ In k (map fst acc)) ->
  fold_left (fun acc kv => match snd kv with
                           | Some value => usp_set (fst kv) (scalar_toString value) acc
                           | None => acc
                           end) l acc = app acc (present_pairs l).
Proof.
  revert acc. induction l as [|[k [v|]] l IH]; intros acc Hnd Hfresh; simpl.
  - now rewrite app_nil_r.
  - inversion Hnd as [|? ? Hk Hnd']; subst.
    unfold usp_set. simpl.
    rewrite existsb_key_absent by (apply Hfresh; now left).
    rewrite IH; [now rewrite <- app_assoc | exact Hnd' |].
    intros k' Hk' Hacc. rewrite map_app, in_app_iff in Hacc.
    destruct Hacc as [Hacc | [Heq | []]].
    + exact (Hfresh k' (or_intror Hk') Hacc).
    + simpl in Heq. subst k'. exact (Hk Hk').
  - inversion Hnd; subst. rewrite IH; auto.
    intros k' Hk'. apply Hfresh. now right.
Qed.

Lemma concat_amp_nonempty (ps : list (string * string)) :
  ps <> [] ->
  String.eqb (String.concat "&" (map (fun kv => form_encode (fst kv) ++ "=" ++ form_encode (snd kv)) ps))
             EmptyString = false.
Proof.
  destruct ps as [|[k v] ps]; [congruence|]. intros _.
  apply String.eqb_neq. simpl.
  destruct (form_encode k); simpl; [destruct ps; discriminate | destruct ps; discriminate].
Qed.

(** C6 (amended). For a JS object with distinct keys, [buildQueryString]
    drops the properties whose value is [undefined], stringifies the others,
    form-urlencodes every key and value and returns [""] when nothing is left,
    else ["?"] followed by the [key=value] pairs joined by ["&"]; the pairs
    follow the order of [Object.entries], which is the insertion order when
    no key is an array index (a canonical integer string). In particular
    [build({a: 1, b: undefined, c: "x"}) = "?a=1&c=x"] and [build({}) = ""]. *)
Theorem buildQueryString_spec (params : js_object (option scalar)) :
  NoDup (map fst params) ->
  buildQueryString params = query_of_pairs (present_pairs (Object_entries params)) /\
  ((forall k, In k (map fst params) -> array_index k = None) ->
   buildQueryString params = query_of_pairs (present_pairs params)) /\
  buildQueryString [("a", Some (SNum 1)); ("b", None); ("c", Some (SStr "x"))] = "?a=1&c=x" /\
  buildQueryString [] = "".
Proof.
  intros Hnd.
  assert (Hmain : buildQueryString params = query_of_pairs (present_pairs (Object_entries params))).
  { unfold buildQueryString.
    rewrite fold_set_distinct.
    - simpl. unfold query_of_pairs, usp_toString.
      destruct (present_pairs (Object_entries params)) as [|p ps] eqn:E; [reflexivity|].
      rewrite concat_amp_nonempty by discriminate. reflexivity.
    - apply (Permutation_NoDup (l := map fst params)); [|exact Hnd].
      apply Permutation_map. symmetry. apply Object_entries_perm.
    - intros k _ []. }
  split; [exact Hmain|]. split; [|split; reflexivity].
  intros Hno. rewrite Hmain. now rewrite Object_entries_no_index.
Qed.

Lemma buildQueryString_spec_witness :
  buildQueryString [("limit", Some (SNum 50)); ("offset", Some (SNum 0)); ("market", None)] =
  "?limit=50&offset=0".
Proof.
  refine (eq_trans (proj1 (proj2 (buildQueryString_spec _ _)) _) _).
  - repeat constructor; simpl; intuition discriminate.
  - intros k Hk. simpl in Hk. repeat destruct Hk as [<- | Hk]; [reflexivity..| destruct Hk].
  - reflexivity.
Defined.

(** C6 (counterexample). The object [{b: 1, "0": 2}] has [b] inserted first,
    but [buildQueryString] puts the array-index key ["0"] first. *)
Lemma buildQueryString_order_counterexample :
  buildQueryString [("b", Some (SNum 1)); ("0", Some (SNum 2))] = "?0=2&b=1" /\
  buildQueryString [("b", Some (SNum 1)); ("0", Some (SNum 2))] <> "?b=1&0=2".
Proof. split; [reflexivity | vm_compute; discriminate]. Qed.

(** ** Search query encoding *)

Lemma form_decode_first_char (c : ascii) (X : string) :
  form_decode_first (form_encode_char c ++ X) = Some (c, X).
Proof.
  destruct c as [[] [] [] [] [] [] [] []]; vm_compute; reflexivity.
Qed.

Lemma form_encode_char_nonempty (c : ascii) : form_encode_char c <> EmptyString.
Proof. destruct c as [[] [] [] [] [] [] [] []]; vm_compute; discriminate. Qed.

Lemma form_encode_inj (s1 s2 : string) : form_encode s1 = form_encode s2 -> s1 = s2.
Proof.
  revert s2. induction s1 as [|c1 s1 IH]; intros [|c2 s2] H; simpl in H.
  - reflexivity.
  - destruct (form_encode_char c2) eqn:E; [exact (False_ind _ (form_encode_char_nonempty c2 E))|].
    discriminate.
  - destruct (form_encode_char c1) eqn:E; [exact (False_ind _ (form_encode_char_nonempty c1 E))|].
    discriminate.
  - pose proof (form_decode_first_char c1 (form_encode s1)) as H1.
    pose proof (form_decode_first_char c2 (form_encode s2)) as H2.
    rewrite H in H1. rewrite H1 in H2. injection H2 as -> Hs.
    f_equal. apply IH. exact Hs.
Qed.

(** C10. With a limit in [1, 50], [search] sends one GET whose [q] value is
    [encodeURIComponent(query)] form-urlencoded a second time by
    [buildQueryString]; whenever [encodeURIComponent] changes the query (a
    space, a ['%'], ...), that value differs from the query encoded once. *)
Theorem search_double_encodes_query (query type : string) (limit : option Z) :
  (1 <= match limit with Some l => l | None => 20 end <= 50)%Z ->
  (forall w tr,
     TracksHandler.search query type limit w tr =
       (http_response w "GET" (search_path query type (match limit with Some l => l | None => 20 end)),
        app tr [EvHttp "GET" (search_path query type (match limit with Some l => l | None => 20 end))])) /\
  (encodeURIComponent query <> query ->
   form_encode (encodeURIComponent query) <> form_encode query).
Proof.
  intros Hl. split.
  - intros w tr. unfold TracksHandler.search.
    set (l := match limit with Some l => l | None => 20%Z end) in *.
    assert (Hb : ((l <? 1) || (50 <? l))%Z = false).
    { apply orb_false_iff; split; apply Z.ltb_ge; lia. }
    rewrite Hb. reflexivity.
  - intros Hne Heq. apply Hne. now apply form_encode_inj.
Qed.

Lemma search_double_encodes_query_witness :
  form_encode (encodeURIComponent "a b") <> form_encode "a b" /\
  form_encode (encodeURIComponent "a b") = "a%2520b".
Proof.
  split; [|reflexivity].
  apply (proj2 (search_double_encodes_query "a b" "track" None ltac:(lia))).
  vm_compute. discriminate.
Defined.

(** ** Desktop bridge errors *)

(** C7 (amended). A runtime error whose message contains ["-1728"] rejects
    with [McpError(InternalError, "Spotify application not found or not
    running.")]; any other runtime error rejects with the same code
    [InternalError] and the message ["AppleScript execution failed: "]
    followed by the runtime's message, or ["Unknown error"] when the message is
    absent or empty. *)
Theorem applescript_settle_error (message : option string) :
  applescript_settle (ScriptError message) =
  inl (McpError InternalError
         (if match message with Some m => includes m "-1728" | None => false end
          then "Spotify application not found or not running."
          else "AppleScript execution failed: " ++
               match message with
               | Some m => if String.eqb m EmptyString then "Unknown error" else m
               | None => "Unknown error"
               end)).
Proof.
  destruct message as [m|]; [|reflexivity]. simpl.
  destruct (String.eqb_spec m EmptyString) as [->|Hne]; [reflexivity|].
  simpl. destruct (includes m "-1728"); reflexivity.
Qed.

(** C7 (counterexample). Both translations carry the same [ErrorCode]
    ([InternalError]), so the "not running" case is not a distinct
    resource-not-found kind; and the test is on the message text, so an error
    reporting code [-17280] is also taken for "not running". *)
Lemma applescript_error_kind_counterexample :
  applescript_settle (ScriptError (Some "execution error: Can't get application. (-1728)")) =
    inl (McpError InternalError "Spotify application not found or not running.") /\
  applescript_settle (ScriptError (Some "execution error: boom (-2700)")) =
    inl (McpError InternalError "AppleScript execution failed: execution error: boom (-2700)") /\
  applescript_settle (ScriptError (Some "execution error: (-17280)")) =
    inl (McpError InternalError "Spotify application not found or not running.").
Proof. repeat split; vm_compute; reflexivity. Qed.

(** ** Dispatcher *)

Lemma call_tool_dispatch_error get_token method_body stringify_pretty name args code msg :
  dispatch name args = inl (McpError code msg) ->
  forall w tr, call_tool get_token method_body stringify_pretty name args w tr =
               (inl (McpError code msg), tr).
Proof.
  intros H w tr. unfold call_tool, catch, bind, lift. rewrite H. reflexivity.
Qed.

Lemma required_not_inherited name req :
  In (name, req) tool_definitions ->
  forall f, In f req -> existsb (String.eqb f) object_prototype_keys = false.
Proof.
  intros H f Hf. simpl in H.
  repeat (destruct H as [H|H]; [injection H as <- <-; simpl in Hf;
                                repeat (destruct Hf as [<-|Hf]; [reflexivity|]);
                                destruct Hf|]).
  destruct H.
Qed.

Lemma has_key_own f a :
  existsb (String.eqb f) object_prototype_keys = false ->
  has_key f a = false <-> ~ In f (map fst a).
Proof.
  intros Hp. unfold has_key. rewrite Hp, orb_false_r. split.
  - intros H Hin. apply in_map_iff in Hin as [[k v] [Hk Hin]]. simpl in Hk. subst k.
    assert (existsb (fun kv => String.eqb f (fst kv)) a = true) as Ht.
    { apply existsb_exists. exists (f, v). split; [exact Hin | apply String.eqb_refl]. }
    congruence.
  - intros Hn. apply not_true_is_false. intros Ht.
    apply existsb_exists in Ht as [[k v] [Hin Heq]]. apply String.eqb_eq in Heq.
    simpl in Heq. subst k. apply Hn. now apply (in_map fst) in Hin.
Qed.

Lemma validateArgs_missing (a : js_object json) (req : list string) :
  (forall f, In f req -> existsb (String.eqb f) object_prototype_keys = false) ->
  (exists f, In f req /\ ~ In f (map fst a)) ->
  exists f, In f req /\ ~ In f (map fst a) /\
            (exists pre post, req = app pre (f :: post) /\ forall g, In g pre -> In g (map fst a)) /\
            validateArgs (Some a) req = inl (McpError InvalidParams ("Missing required field: " ++ f)).
Proof.
  intros Hp. induction req as [|f0 req IH]; intros [f [Hf Hmiss]]; [destruct Hf|].
  unfold validateArgs. simpl.
  destruct (has_key f0 a) eqn:Hk; simpl.
  - assert (Hin0 : In f0 (map fst a)).
    { destruct (in_dec string_dec f0 (map fst a)) as [Hi|Hi]; [exact Hi|].
      apply (has_key_own f0 a (Hp f0 (or_introl eq_refl))) in Hi. congruence. }
    assert (Hne : f <> f0) by (intros ->; contradiction).
    destruct Hf as [Hf|Hf]; [congruence|].
    destruct IH as (f' & Hf' & Hm' & (pre & post & Hreq & Hpre) & Hv).
    + intros g Hg. apply Hp. now right.
    + exists f. split; assumption.
    + exists f'. split; [now right|]. split; [exact Hm'|]. split; [|exact Hv].
      exists (f0 :: pre), post. split; [simpl; now rewrite Hreq|].
      intros g [<-|Hg]; [exact Hin0 | exact (Hpre g Hg)].
  - exists f0. split; [now left|]. split; [|split; [|reflexivity]].
    + apply (has_key_own f0 a (Hp f0 (or_introl eq_refl))). exact Hk.
    + exists [], req. split; [reflexivity | intros g []].
Qed.

Lemma dispatch_unknown (name : string) (args : option (js_object json)) :
  ~ In name declared_names ->
  dispatch name args = inl (McpError MethodNotFound ("Unknown tool: " ++ name)).
Proof.
  intros H. unfold dispatch.
  repeat match goal with
         | |- context [String.eqb name ?s] =>
             destruct (String.eqb_spec name s) as [E|_];
             [subst name; exfalso; apply H; simpl; tauto|]
         end.
  reflexivity.
Qed.

Lemma dispatch_declared_validates (name : string) (req : list string) (args : option (js_object json)) :
  In (name, req) tool_definitions -> req <> [] ->
  exists k, dispatch name args = with_args args req k.
Proof.
  intros H Hne. simpl in H.
  repeat (destruct H as [H|H];
          [injection H as <- <-;
           first [ congruence
                 | eexists; unfold dispatch; cbn -[with_args]; reflexivity ] |]).
  destruct H.
Qed.

(** C1 (amended). An undeclared tool name fails with [MethodNotFound]
    ("Unknown tool: <name>"). For a declared tool with a required field
    absent from the supplied argument object, the dispatcher fails with
    [InvalidParams] "Missing required field: <f>", where [f] is the first
    missing required field in the declared order (every required field
    before it is present); when the request carries no
    argument object, a tool with required fields fails with [InvalidParams]
    "Arguments are required", which names no field. In every such case the
    error is rethrown as is and neither a handler, a request nor a script is
    run. *)
Theorem dispatch_rejects_before_handler (name : string) (args : option (js_object json)) :
  (~ In name declared_names ->
   dispatch name args = inl (McpError MethodNotFound ("Unknown tool: " ++ name)) /\
   forall get_token method_body stringify_pretty w tr,
     call_tool get_token method_body stringify_pretty name args w tr =
       (inl (McpError MethodNotFound ("Unknown tool: " ++ name)), tr)) /\
  (forall req a, In (name, req) tool_definitions -> args = Some a ->
   (exists f, In f req /\ ~ In f (map fst a)) ->
   exists f, In f req /\ ~ In f (map fst a) /\
     (exists pre post, req = app pre (f :: post) /\ forall g, In g pre -> In g (map fst a)) /\
     dispatch name args = inl (McpError InvalidParams ("Missing required field: " ++ f)) /\
     forall get_token method_body stringify_pretty w tr,
       call_tool get_token method_body stringify_pretty name args w tr =
         (inl (McpError InvalidParams ("Missing required field: " ++ f)), tr)) /\
  (forall req, In (name, req) tool_definitions -> req <> [] -> args = None ->
   dispatch name args = inl (McpError InvalidParams "Arguments are required") /\
   forall get_token method_body stringify_pretty w tr,
     call_tool get_token method_body stringify_pretty name args w tr =
       (inl (McpError InvalidParams "Arguments are required"), tr)).
Proof.
  split; [|split].
  - intros H. pose proof (dispatch_unknown name args H) as Hd.
    split; [exact Hd|]. intros. now apply call_tool_dispatch_error.
  - intros req a Hin -> Hmiss.
    destruct (validateArgs_missing a req (required_not_inherited name req Hin) Hmiss)
      as (f & Hf & Hm & Hfirst & Hv).
    assert (Hne : req <> []) by (intros ->; destruct Hf).
    destruct (dispatch_declared_validates name req (Some a) Hin Hne) as [k Hk].
    assert (Hd : dispatch name (Some a) =
                 inl (McpError InvalidParams ("Missing required field: " ++ f))).
    { rewrite Hk. unfold with_args. now rewrite Hv. }
    exists f. split; [exact Hf|]. split; [exact Hm|]. split; [exact Hfirst|]. split; [exact Hd|].
    intros. now apply call_tool_dispatch_error.
  - intros req Hin Hne ->.
    destruct (dispatch_declared_validates name req None Hin Hne) as [k Hk].
    assert (Hd : dispatch name None = inl (McpError InvalidParams "Arguments are required"))
      by (rewrite Hk; reflexivity).
    split; [exact Hd|]. intros. now apply call_tool_dispatch_error.
Qed.

Lemma dispatch_rejects_before_handler_witness :
  dispatch "no_such_tool" None = inl (McpError MethodNotFound ("Unknown tool: " ++ "no_such_tool")) /\
  exists f, In f ["id"; "uris"] /\ ~ In f (map fst [("id", JStr "37i9dQZF1DXcBWIGoYBM5M")]) /\
    (exists pre post, ["id"; "uris"] = app pre (f :: post) /\
       forall g, In g pre -> In g (map fst [("id", JStr "37i9dQZF1DXcBWIGoYBM5M")])) /\
    dispatch "add_tracks_to_playlist" (Some [("id", JStr "37i9dQZF1DXcBWIGoYBM5M")]) =
      inl (McpError InvalidParams ("Missing required field: " ++ f)).
Proof.
  split.
  - exact (proj1 (proj1 (dispatch_rejects_before_handler "no_such_tool" None)
                    ltac:(simpl; intuition discriminate))).
  - destruct (proj1 (proj2 (dispatch_rejects_before_handler "add_tracks_to_playlist"
                              (Some [("id", JStr "37i9dQZF1DXcBWIGoYBM5M")])))
                ["id"; "uris"] [("id", JStr "37i9dQZF1DXcBWIGoYBM5M")] ltac:(simpl; tauto) eq_refl
                ltac:(exists "uris"; split; [right; left; reflexivity | simpl; intuition discriminate]))
      as (f & Hf & Hm & Hfirst & Hd & _).
    exists f. split; [exact Hf|]. split; [exact Hm|]. split; [exact Hfirst | exact Hd].
Defined.

(** C1 (counterexample). A [get_artist] request without an argument object
    lacks the required field [id], but the error is "Arguments are required",
    which does not name it. *)
Lemma dispatch_no_arguments_counterexample :
  dispatch "get_artist" None = inl (McpError InvalidParams "Arguments are required") /\
  includes "Arguments are required" "id" = false.
Proof. split; vm_compute; reflexivity. Qed.

(** ** [spotify_play_track] *)

Lemma lookup_has_key (k : string) (a : js_object json) (v : json) :
  lookup k a = Some v -> has_key k a = true.
Proof.
  unfold has_key. induction a as [|[k' v'] a IH]; simpl; [discriminate|].
  destruct (String.eqb_spec k k') as [->|Hne]; intros H.
  - reflexivity.
  - simpl. exact (IH H).
Qed.

Lemma applescript_settle_mcp (o : ScriptOutcome) :
  (exists s, applescript_settle o = inr s) \/
  (exists c m, applescript_settle o = inl (McpError c m)).
Proof.
  destruct o as [m|r]; simpl.
  - right. destruct (js_truthy_string m && _); eauto.
  - left. destruct r as [r|]; [destruct (String.eqb r EmptyString)|]; eauto.
Qed.

Lemma startsWith_nonempty (s p : string) :
  startsWith s (String "s" p) = true -> String.eqb s EmptyString = false.
Proof. destruct s; [discriminate | reflexivity]. Qed.

(** C8. For a [uri] string argument, [spotify_play_track] rejects with
    [InvalidParams] and runs no script when [uri] does not start with
    ["spotify:track:"]; when it does, it runs exactly one script (the
    play-track template holding [uri]) and settles with that script's
    outcome. *)
Theorem play_track_prefix_gate (uri : string) (args : js_object json) :
  lookup "uri" args = Some (JStr uri) ->
  forall get_token method_body stringify_pretty w tr,
  (startsWith uri "spotify:track:" = false ->
   call_tool get_token method_body stringify_pretty "spotify_play_track" (Some args) w tr =
     (inl (McpError InvalidParams play_track_uri_error), tr)) /\
  (startsWith uri "spotify:track:" = true ->
   call_tool get_token method_body stringify_pretty "spotify_play_track" (Some args) w tr =
     (applescript_settle (script_outcome w (script_play_track uri)),
      app tr [EvScript (script_play_track uri)])).
Proof.
  intros Huri get_token method_body stringify_pretty w tr.
  assert (Hd : dispatch "spotify_play_track" (Some args) = inr (RPlayTrack args)).
  { unfold dispatch. cbn -[with_args]. unfold with_args, validateArgs. simpl.
    now rewrite (lookup_has_key _ _ _ Huri). }
  unfold call_tool, catch, bind, lift. rewrite Hd. simpl.
  unfold play_track. rewrite Huri.
  split; intros Hs; rewrite Hs.
  - rewrite orb_true_r. reflexivity.
  - rewrite (startsWith_nonempty _ _ Hs). simpl. unfold executeAppleScript.
    destruct (applescript_settle_mcp (script_outcome w (script_play_track uri)))
      as [[s Hr] | (c & m & Hr)]; rewrite Hr; reflexivity.
Qed.

Lemma play_track_prefix_gate_witness :
  call_tool (ret "tok") (fun _ _ _ => ret JNull) (fun _ => EmptyString)
            "spotify_play_track" (Some [("uri", JStr "not-a-uri")])
            {| http_response := fun _ _ => inr JNull; script_outcome := fun _ => ScriptResult None |} [] =
    (inl (McpError InvalidParams play_track_uri_error), []) /\
  snd (call_tool (ret "tok") (fun _ _ _ => ret JNull) (fun _ => EmptyString)
                 "spotify_play_track" (Some [("uri", JStr "spotify:track:abc")])
                 {| http_response := fun _ _ => inr JNull; script_outcome := fun _ => ScriptResult None |} []) =
    [EvScript (script_play_track "spotify:track:abc")].
Proof.
  split.
  - apply (proj1 (play_track_prefix_gate "not-a-uri" [("uri", JStr "not-a-uri")] eq_refl _ _ _ _ _)). reflexivity.
  - rewrite (proj2 (play_track_prefix_gate "spotify:track:abc" [("uri", JStr "spotify:track:abc")] eq_refl _ _ _ _ _) eq_refl).
    reflexivity.
Defined.

(** ** [get_current_user_playlists] *)

(** C5. [get_current_user_playlists] dispatches to
    [this.playlistsHandler.getCurrentUserPlaylists], a method the
    [PlaylistsHandler] class does not define: for every argument object the
    call throws a [TypeError], which the catch block turns into an
    [InternalError], and no request (to [/me/playlists] or anywhere) is made. *)
Theorem get_current_user_playlists_fails (args : option (js_object json))
    get_token method_body stringify_pretty (w : World) (tr : list Event) :
  call_tool get_token method_body stringify_pretty "get_current_user_playlists" args w tr =
    (inl (McpError InternalError
            ("Unexpected error processing tool get_current_user_playlists: " ++
             "this.playlistsHandler.getCurrentUserPlaylists is not a function")), tr).
Proof. destruct args; reflexivity. Qed.

(** ** Handler argument checks *)

Ltac settle_checks :=
  repeat match goal with
         | |- context [Nat.eqb ?a ?b] => destruct (Nat.eqb_spec a b)
         | |- context [Nat.ltb ?a ?b] => destruct (Nat.ltb_spec a b)
         | |- context [Z.ltb ?a ?b] => destruct (Z.ltb_spec a b)
         end; simpl; try lia.

Ltac reject := intros w tr; eexists; reflexivity.
Ltac issue := intros w tr; eexists; reflexivity.

(** C4 (amended). Each family of the validation table rejects violating
    arguments with [InvalidParams] before any request, and sends exactly one
    GET otherwise: bulk-by-ids with 1..50 artist or audiobook ids or 1..20
    album ids; album tracks, artist albums and new releases with [limit]
    (default 20) in [1, 50] and [offset] (default 0) at least 0;
    recommendations with some non-empty seed list and [limit] (default 20) in
    [1, 100]; artist top tracks with a [market] that is present and non-empty
    (an empty [market] is rejected like a missing one). *)
Theorem handler_checks_before_request :
  (forall ids, (length ids = 0 \/ 50 < length ids) ->
     rejects_invalid (ArtistsHandler.getMultipleArtists ids)) /\
  (forall ids, 1 <= length ids <= 50 -> issues_one_get (ArtistsHandler.getMultipleArtists ids)) /\
  (forall ids market, (length ids = 0 \/ 50 < length ids) ->
     rejects_invalid (AudiobooksHandler.getMultipleAudiobooks ids market)) /\
  (forall ids market, 1 <= length ids <= 50 ->
     issues_one_get (AudiobooksHandler.getMultipleAudiobooks ids market)) /\
  (forall ids, (length ids = 0 \/ 20 < length ids) ->
     rejects_invalid (AlbumsHandler.getMultipleAlbums ids)) /\
  (forall ids, 1 <= length ids <= 20 -> issues_one_get (AlbumsHandler.getMultipleAlbums ids)) /\
  (forall id limit offset,
     (default_Z limit 20 < 1 \/ 50 < default_Z limit 20 \/ default_Z offset 0 < 0)%Z ->
     rejects_invalid (AlbumsHandler.getAlbumTracks id limit offset)) /\
  (forall id limit offset,
     (1 <= default_Z limit 20 <= 50 /\ 0 <= default_Z offset 0)%Z ->
     issues_one_get (AlbumsHandler.getAlbumTracks id limit offset)) /\
  (forall id limit offset groups,
     (default_Z limit 20 < 1 \/ 50 < default_Z limit 20 \/ default_Z offset 0 < 0)%Z ->
     rejects_invalid (ArtistsHandler.getArtistAlbums id limit offset groups)) /\
  (forall id limit offset groups,
     (1 <= default_Z limit 20 <= 50 /\ 0 <= default_Z offset 0)%Z ->
     issues_one_get (ArtistsHandler.getArtistAlbums id limit offset groups)) /\
  (forall country limit offset,
     (default_Z limit 20 < 1 \/ 50 < default_Z limit 20 \/ default_Z offset 0 < 0)%Z ->
     rejects_invalid (AlbumsHandler.getNewReleases country limit offset)) /\
  (forall country limit offset,
     (1 <= default_Z limit 20 <= 50 /\ 0 <= default_Z offset 0)%Z ->
     issues_one_get (AlbumsHandler.getNewReleases country limit offset)) /\
  (forall st sa sg limit,
     (seeds_length st + seeds_length sa + seeds_length sg = 0 \/
      (default_Z limit 20 < 1)%Z \/ (100 < default_Z limit 20)%Z) ->
     rejects_invalid (TracksHandler.getRecommendations st sa sg limit)) /\
  (forall st sa sg limit,
     0 < seeds_length st + seeds_length sa + seeds_length sg ->
     (1 <= default_Z limit 20 <= 100)%Z ->
     issues_one_get (TracksHandler.getRecommendations st sa sg limit)) /\
  (forall id market, falsy_string market = true ->
     rejects_invalid (ArtistsHandler.getArtistTopTracks id market)) /\
  (forall id m, m <> EmptyString ->
     issues_one_get (ArtistsHandler.getArtistTopTracks id (Some m))).
Proof.
  unfold default_Z, seeds_length.
  repeat split.
  - intros ids H. unfold ArtistsHandler.getMultipleArtists. settle_checks; reject.
  - intros ids H. unfold ArtistsHandler.getMultipleArtists. settle_checks; issue.
  - intros ids market H. unfold AudiobooksHandler.getMultipleAudiobooks. settle_checks; reject.
  - intros ids market H. unfold AudiobooksHandler.getMultipleAudiobooks. settle_checks; issue.
  - intros ids H. unfold AlbumsHandler.getMultipleAlbums. settle_checks; reject.
  - intros ids H. unfold AlbumsHandler.getMultipleAlbums. settle_checks; issue.
  - intros id limit offset H. unfold AlbumsHandler.getAlbumTracks. settle_checks; reject.
  - intros id limit offset H. unfold AlbumsHandler.getAlbumTracks. settle_checks; issue.
  - intros id limit offset g H. unfold ArtistsHandler.getArtistAlbums. settle_checks; reject.
  - intros id limit offset g H. unfold ArtistsHandler.getArtistAlbums. settle_checks; issue.
  - intros c limit offset H. unfold AlbumsHandler.getNewReleases. settle_checks; reject.
  - intros c limit offset H. unfold AlbumsHandler.getNewReleases. settle_checks; issue.
  - intros st sa sg limit H. unfold TracksHandler.getRecommendations.
    destruct st, sa, sg; simpl in *; settle_checks; reject.
  - intros st sa sg limit H1 H2. unfold TracksHandler.getRecommendations.
    destruct st, sa, sg; simpl in *; settle_checks; issue.
  - intros id market H. unfold ArtistsHandler.getArtistTopTracks. rewrite H. reject.
  - intros id m H. unfold ArtistsHandler.getArtistTopTracks, falsy_string, js_truthy_string.
    apply String.eqb_neq in H. rewrite H. issue.
Qed.

Lemma handler_checks_before_request_witness :
  rejects_invalid (AlbumsHandler.getAlbumTracks "4aawyAB9vmqN3uQ7FjRGTy" (Some 51%Z) None) /\
  issues_one_get (AlbumsHandler.getAlbumTracks "4aawyAB9vmqN3uQ7FjRGTy" (Some 50%Z) (Some 0%Z)).
Proof.
  destruct handler_checks_before_request as (_ & _ & _ & _ & _ & _ & Hr & Hi & _).
  split.
  - apply Hr. simpl. lia.
  - apply Hi. simpl. lia.
Defined.

(** C4 (counterexample). A [market] that is present but empty is rejected
    as if it were missing: [!args.market] holds for [""]. *)
Lemma top_tracks_empty_market_counterexample :
  ArtistsHandler.getArtistTopTracks "0TnOYISbd1XYRBk9myaseg" (Some "")
    {| http_response := fun _ _ => inr JNull; script_outcome := fun _ => ScriptResult None |} [] =
  (inl (McpError InvalidParams "market parameter is required for top tracks"), []).
Proof. reflexivity. Qed.

(* ========================================================================= *)
(** * Further properties of the code *)

(** ** Identifier normalisation *)

Lemma split_on_colon_free (s x : string) : In x (split_on ":" s) -> has_colon x = false.
Proof.
  revert x. induction s as [|a s IH]; intros x; simpl.
  - intros [<- | []]. reflexivity.
  - destruct (Ascii.eqb a ":") eqn:Ea.
    + intros [<- | Hx]; [reflexivity | exact (IH x Hx)].
    + destruct (split_on ":" s) as [|h t] eqn:E.
      * intros [<- | []]. simpl. rewrite Ea. reflexivity.
      * intros [<- | Hx].
        -- simpl. rewrite Ea. apply (IH h). now left.
        -- apply IH. now right.
Qed.

Lemma startsWith_colon_free (x p : string) :
  has_colon x = false -> has_colon p = true -> startsWith x p = false.
Proof.
  unfold startsWith. revert x. induction p as [|a p IH]; intros x Hx Hp; [discriminate|].
  destruct x as [|b x]; [reflexivity|]. simpl.
  simpl in Hx, Hp. apply orb_false_iff in Hx as [Hb Hx].
  destruct (ascii_dec a b) as [<-|Hne]; [|reflexivity].
  rewrite Hb in Hp. simpl in Hp. exact (IH x Hx Hp).
Qed.

Lemma kind_prefix_has_colon (kind : string) : has_colon (kind_prefix kind) = true.
Proof. reflexivity. Qed.

Lemma extract_by_prefix_colon_free (kind id : string) :
  startsWith id (kind_prefix kind) = true ->
  has_colon (extract_by_prefix (kind_prefix kind) id) = false.
Proof.
  intros H. unfold extract_by_prefix. rewrite H.
  destruct (nth_error (split_on ":" id) 2) as [seg|] eqn:E; [|reflexivity].
  apply nth_error_In in E. exact (split_on_colon_free _ _ E).
Qed.

(** Normalisation is idempotent, and an identifier it takes out of a URI has
    no colon left. *)
Theorem extract_by_prefix_idempotent (kind id : string) :
  extract_by_prefix (kind_prefix kind) (extract_by_prefix (kind_prefix kind) id) =
    extract_by_prefix (kind_prefix kind) id /\
  (startsWith id (kind_prefix kind) = true ->
   has_colon (extract_by_prefix (kind_prefix kind) id) = false).
Proof.
  split; [|apply extract_by_prefix_colon_free].
  destruct (startsWith id (kind_prefix kind)) eqn:H.
  - pose proof (extract_by_prefix_colon_free kind id H) as Hc.
    unfold extract_by_prefix at 1.
    rewrite (startsWith_colon_free _ _ Hc (kind_prefix_has_colon kind)). reflexivity.
  - assert (E : extract_by_prefix (kind_prefix kind) id = id)
      by (unfold extract_by_prefix; now rewrite H).
    rewrite E. exact E.
Qed.

Lemma extract_by_prefix_idempotent_witness :
  has_colon (extractArtistId "spotify:artist:0OdUWJ0sBjDrqHygGUXeCF") = false.
Proof.
  exact (proj2 (extract_by_prefix_idempotent "artist" "spotify:artist:0OdUWJ0sBjDrqHygGUXeCF") eq_refl).
Defined.

Lemma extract_uri_bare (kind X : string) :
  has_colon kind = false -> has_colon X = false ->
  extract_by_prefix (kind_prefix kind) (kind_prefix kind ++ X) = X /\
  extract_by_prefix (kind_prefix kind) X = X.
Proof.
  intros Hk HX. split.
  - unfold extract_by_prefix, startsWith. rewrite prefix_app_self. unfold kind_prefix.
    rewrite !string_app_assoc. simpl. rewrite (split_on_colon_app kind X Hk). simpl.
    pose proof (first_segment_no_colon X HX) as F. unfold first_segment in F.
    destruct (split_on ":" X) as [|h t] eqn:E; [exfalso; exact (split_on_nonempty _ _ E)|].
    exact F.
  - unfold extract_by_prefix. now rewrite (startsWith_colon_free X _ HX (kind_prefix_has_colon kind)).
Qed.

(** Every handler that takes one identifier makes the same call for the URI
    ["spotify:<kind>:X"] and for the bare identifier [X] (colon-free). *)
Theorem handlers_accept_uri_or_id (X : string) :
  has_colon X = false ->
  ArtistsHandler.getArtist ("spotify:artist:" ++ X) = ArtistsHandler.getArtist X /\
  ArtistsHandler.getArtistRelatedArtists ("spotify:artist:" ++ X) =
    ArtistsHandler.getArtistRelatedArtists X /\
  (forall market, ArtistsHandler.getArtistTopTracks ("spotify:artist:" ++ X) market =
                  ArtistsHandler.getArtistTopTracks X market) /\
  (forall limit offset groups,
     ArtistsHandler.getArtistAlbums ("spotify:artist:" ++ X) limit offset groups =
     ArtistsHandler.getArtistAlbums X limit offset groups) /\
  TracksHandler.getTrack ("spotify:track:" ++ X) = TracksHandler.getTrack X /\
  AlbumsHandler.getAlbum ("spotify:album:" ++ X) = AlbumsHandler.getAlbum X /\
  (forall limit offset, AlbumsHandler.getAlbumTracks ("spotify:album:" ++ X) limit offset =
                        AlbumsHandler.getAlbumTracks X limit offset) /\
  (forall market, AudiobooksHandler.getAudiobook ("spotify:audiobook:" ++ X) market =
                  AudiobooksHandler.getAudiobook X market) /\
  (forall market limit offset,
     AudiobooksHandler.getAudiobookChapters ("spotify:audiobook:" ++ X) market limit offset =
     AudiobooksHandler.getAudiobookChapters X market limit offset) /\
  (forall market, PlaylistsHandler.getPlaylist ("spotify:playlist:" ++ X) market =
                  PlaylistsHandler.getPlaylist X market) /\
  (forall market limit offset fields,
     PlaylistsHandler.getPlaylistTracks ("spotify:playlist:" ++ X) market limit offset fields =
     PlaylistsHandler.getPlaylistTracks X market limit offset fields) /\
  (forall market limit offset fields,
     PlaylistsHandler.getPlaylistItems ("spotify:playlist:" ++ X) market limit offset fields =
     PlaylistsHandler.getPlaylistItems X market limit offset fields) /\
  (forall name isPublic collaborative description,
     PlaylistsHandler.modifyPlaylist ("spotify:playlist:" ++ X) name isPublic collaborative description =
     PlaylistsHandler.modifyPlaylist X name isPublic collaborative description) /\
  (forall uris position,
     PlaylistsHandler.addTracksToPlaylist ("spotify:playlist:" ++ X) uris position =
     PlaylistsHandler.addTracksToPlaylist X uris position) /\
  (forall tracks snapshot_id,
     PlaylistsHandler.removeTracksFromPlaylist ("spotify:playlist:" ++ X) tracks snapshot_id =
     PlaylistsHandler.removeTracksFromPlaylist X tracks snapshot_id).
Proof.
  intros HX.
  destruct (extract_uri_bare "artist" X eq_refl HX) as [A1 A2].
  destruct (extract_uri_bare "track" X eq_refl HX) as [T1 T2].
  destruct (extract_uri_bare "album" X eq_refl HX) as [L1 L2].
  destruct (extract_uri_bare "audiobook" X eq_refl HX) as [B1 B2].
  destruct (extract_uri_bare "playlist" X eq_refl HX) as [P1 P2].
  change (kind_prefix "artist") with "spotify:artist:" in A1, A2.
  change (kind_prefix "track") with "spotify:track:" in T1, T2.
  change (kind_prefix "album") with "spotify:album:" in L1, L2.
  change (kind_prefix "audiobook") with "spotify:audiobook:" in B1, B2.
  change (kind_prefix "playlist") with "spotify:playlist:" in P1, P2.
  unfold ArtistsHandler.getArtist, ArtistsHandler.getArtistRelatedArtists,
    ArtistsHandler.getArtistTopTracks, ArtistsHandler.getArtistAlbums, TracksHandler.getTrack,
    AlbumsHandler.getAlbum, AlbumsHandler.getAlbumTracks, AudiobooksHandler.getAudiobook,
    AudiobooksHandler.getAudiobookChapters, PlaylistsHandler.getPlaylist,
    PlaylistsHandler.getPlaylistTracks, PlaylistsHandler.getPlaylistItems,
    PlaylistsHandler.modifyPlaylist, PlaylistsHandler.addTracksToPlaylist,
    PlaylistsHandler.removeTracksFromPlaylist,
    extractArtistId, extractTrackId, extractAlbumId, extractAudiobookId, extractPlaylistId.
  rewrite A1, A2, T1, T2, L1, L2, B1, B2, P1, P2.
  repeat split.
Qed.

Lemma handlers_accept_uri_or_id_witness :
  TracksHandler.getTrack ("spotify:track:" ++ "11dFghVXANMlKmJXsNCbNl") =
  TracksHandler.getTrack "11dFghVXANMlKmJXsNCbNl".
Proof.
  exact (proj1 (proj2 (proj2 (proj2 (proj2 (handlers_accept_uri_or_id "11dFghVXANMlKmJXsNCbNl" eq_refl)))))).
Defined.

(** ** Query strings *)

Lemma usp_set_nonempty (k v : string) (l : URLSearchParams) : usp_set k v l <> [].
Proof.
  unfold usp_set. destruct (existsb (fun kv => String.eqb k (fst kv)) l) eqn:E.
  - destruct l as [|[k' v'] l]; [discriminate|]. simpl.
    destruct (String.eqb k k'); discriminate.
  - destruct l; discriminate.
Qed.

Lemma fold_set_empty (l : list (string * option scalar)) (acc : URLSearchParams) :
  fold_left (fun acc kv => match snd kv with
                           | Some value => usp_set (fst kv) (scalar_toString value) acc
                           | None => acc
                           end) l acc = [] <->
  acc = [] /\ Forall (fun kv => snd kv = None) l.
Proof.
  revert acc. induction l as [|[k [v|]] l IH]; intros acc; simpl.
  - split; [intros ->; auto | intros [-> _]; reflexivity].
  - rewrite IH. split.
    + intros [H _]. exfalso. exact (usp_set_nonempty _ _ _ H).
    + intros [_ HF]. inversion HF as [|? ? Hv]. discriminate.
  - rewrite IH. split.
    + intros [H1 H2]. split; [exact H1 | now constructor].
    + intros [H1 H2]. inversion H2. auto.
Qed.

Lemma usp_toString_empty (l : URLSearchParams) :
  String.eqb (usp_toString l) EmptyString = true <-> l = [].
Proof.
  split; [|intros ->; reflexivity].
  destruct l as [|p ps]; [reflexivity|]. unfold usp_toString.
  rewrite concat_amp_nonempty by discriminate. discriminate.
Qed.

(** The query builder returns [""] exactly when every value is [undefined];
    otherwise its result starts with ["?"]. *)
Theorem buildQueryString_empty_iff (params : js_object (option scalar)) :
  (buildQueryString params = EmptyString <-> Forall (fun kv => snd kv = None) params) /\
  (buildQueryString params <> EmptyString -> exists r, buildQueryString params = String "?" r).
Proof.
  assert (Hperm : Forall (fun kv : string * option scalar => snd kv = None) (Object_entries params) <->
                  Forall (fun kv : string * option scalar => snd kv = None) params).
  { split; apply Permutation_Forall;
      [apply Object_entries_perm | symmetry; apply Object_entries_perm]. }
  destruct (fold_set_empty (Object_entries params) []) as [F1 F2].
  unfold buildQueryString. cbv zeta.
  destruct (String.eqb (usp_toString _) EmptyString) eqn:E.
  - apply usp_toString_empty, F1 in E as [_ HF].
    split; [split; [intros _; apply Hperm; exact HF | reflexivity] | intros H; congruence].
  - split; [split; [intros H; discriminate | intros HF] | intros _; eexists; reflexivity].
    apply Hperm in HF. rewrite (F2 (conj eq_refl HF)) in E. discriminate.
Qed.

Lemma buildQueryString_empty_iff_witness :
  buildQueryString [("market", None); ("limit", None)] = EmptyString /\
  exists r, buildQueryString [("market", Some (SStr "US"))] = String "?" r.
Proof.
  split.
  - apply (proj2 (proj1 (buildQueryString_empty_iff _))). repeat constructor.
  - apply (proj2 (buildQueryString_empty_iff _)). vm_compute. discriminate.
Defined.

Lemma buildQueryString_entries (params : js_object (option scalar)) :
  NoDup (map fst params) ->
  buildQueryString params = query_of_pairs (present_pairs (Object_entries params)).
Proof.
  intros Hnd. unfold buildQueryString.
  rewrite fold_set_distinct.
  - simpl. unfold query_of_pairs, usp_toString.
    destruct (present_pairs (Object_entries params)) as [|p ps] eqn:E; [reflexivity|].
    rewrite concat_amp_nonempty by discriminate. reflexivity.
  - apply (Permutation_NoDup (l := map fst params)); [|exact Hnd].
    apply Permutation_map. symmetry. apply Object_entries_perm.
  - intros k _ [].
Qed.

Lemma has_char_app (c : ascii) (a b : string) :
  has_char c (a ++ b) = has_char c a || has_char c b.
Proof. induction a as [|x a IH]; simpl; [reflexivity | rewrite IH; apply orb_assoc]. Qed.

Lemma form_encode_char_sep (c : ascii) :
  has_char "&" (form_encode_char c) = false /\ has_char "=" (form_encode_char c) = false.
Proof. destruct c as [[] [] [] [] [] [] [] []]; split; vm_compute; reflexivity. Qed.

Lemma form_encode_sep (s : string) :
  has_char "&" (form_encode s) = false /\ has_char "=" (form_encode s) = false.
Proof.
  induction s as [|c s [IH1 IH2]]; [split; reflexivity|]. simpl.
  rewrite !has_char_app. destruct (form_encode_char_sep c) as [H1 H2].
  rewrite H1, H2, IH1, IH2. split; reflexivity.
Qed.

Lemma split_on_no_sep (c : ascii) (s : string) : has_char c s = false -> split_on c s = [s].
Proof.
  induction s as [|a s IH]; simpl; [reflexivity|]. intros H.
  apply orb_false_iff in H as [Ha Hs]. rewrite Ha, (IH Hs). reflexivity.
Qed.

Lemma split_on_app_sep (c : ascii) (s r : string) :
  has_char c s = false -> split_on c (s ++ String c r) = s :: split_on c r.
Proof.
  induction s as [|a s IH]; simpl; intros H.
  - rewrite Ascii.eqb_refl. reflexivity.
  - apply orb_false_iff in H as [Ha Hs]. rewrite Ha, (IH Hs). reflexivity.
Qed.

Lemma split_on_concat (c : ascii) (xs : list string) :
  xs <> [] -> Forall (fun x => has_char c x = false) xs ->
  split_on c (String.concat (String c EmptyString) xs) = xs.
Proof.
  induction xs as [|x xs IH]; intros Hne HF; [congruence|].
  inversion HF as [|? ? Hx HF']; subst.
  destruct xs as [|y ys].
  - simpl. now apply split_on_no_sep.
  - change (String.concat (String c EmptyString) (x :: y :: ys))
      with (x ++ String c (String.concat (String c EmptyString) (y :: ys))).
    rewrite (split_on_app_sep c x _ Hx). rewrite IH; [reflexivity | discriminate | exact HF'].
Qed.

Lemma string_length_app (a b : string) : String.length (a ++ b) = String.length a + String.length b.
Proof. induction a as [|x a IH]; simpl; [reflexivity | now rewrite IH]. Qed.

Lemma form_encode_length (s : string) : String.length s <= String.length (form_encode s).
Proof.
  induction s as [|c s IH]; simpl; [lia|].
  rewrite string_length_app.
  destruct (form_encode_char c) as [|a r] eqn:E; [exact (False_ind _ (form_encode_char_nonempty c E))|].
  simpl. lia.
Qed.

Lemma form_decode_fuel_encode (s : string) (n : nat) :
  String.length s <= n -> form_decode_fuel n (form_encode s) = Some s.
Proof.
  revert n. induction s as [|c s IH]; intros n Hn; [destruct n; reflexivity|].
  simpl in Hn. destruct n as [|n]; [lia|].
  pose proof (form_decode_first_char c (form_encode s)) as H1.
  simpl form_encode.
  destruct (form_encode_char c ++ form_encode s) as [|a r] eqn:E.
  - exfalso. destruct (form_encode_char c) eqn:E'; [exact (form_encode_char_nonempty c E') | discriminate].
  - cbn [form_decode_fuel]. rewrite H1. cbn [option_map].
    rewrite IH by lia. reflexivity.
Qed.

Lemma form_decode_encode (s : string) : form_decode (form_encode s) = Some s.
Proof. apply form_decode_fuel_encode, form_encode_length. Qed.

Lemma parse_pair_encode (k v : string) :
  parse_pair (form_encode k ++ "=" ++ form_encode v) = Some (k, v).
Proof.
  unfold parse_pair. change ("=" ++ form_encode v) with (String "=" (form_encode v)).
  rewrite (split_on_app_sep "=" (form_encode k) (form_encode v)) by apply form_encode_sep.
  rewrite (split_on_no_sep "=" (form_encode v)) by apply form_encode_sep.
  rewrite !form_decode_encode. reflexivity.
Qed.

Lemma parse_pairs_encode (ps : list (string * string)) :
  parse_pairs (map (fun kv => form_encode (fst kv) ++ "=" ++ form_encode (snd kv)) ps) = Some ps.
Proof.
  induction ps as [|[k v] ps IH]; [reflexivity|].
  cbn [map parse_pairs fst snd]. rewrite parse_pair_encode, IH. reflexivity.
Qed.

Lemma query_of_pairs_round_trip (ps : list (string * string)) :
  parse_query (query_of_pairs ps) = Some ps.
Proof.
  destruct ps as [|p ps]; [reflexivity|].
  unfold query_of_pairs. cbn [parse_query append].
  rewrite split_on_concat.
  - apply parse_pairs_encode.
  - discriminate.
  - apply Forall_forall. intros x Hx. apply in_map_iff in Hx as [[k v] [<- _]]. cbn [fst snd].
    rewrite !has_char_app. simpl has_char at 2.
    rewrite (proj1 (form_encode_sep k)), (proj1 (form_encode_sep v)). reflexivity.
Qed.

(** The query builder's output reads back: parsing it as a form-urlencoded
    query (split on ["&"] and ["="], then decode) gives exactly the defined
    keys and their stringified values, in [Object.entries] order. *)
Theorem buildQueryString_parse (params : js_object (option scalar)) :
  NoDup (map fst params) ->
  parse_query (buildQueryString params) = Some (present_pairs (Object_entries params)).
Proof.
  intros Hnd. rewrite (buildQueryString_entries params Hnd). apply query_of_pairs_round_trip.
Qed.

Lemma buildQueryString_parse_witness :
  parse_query (buildQueryString [("q", Some (SStr "a b&c=d%")); ("type", Some (SStr "track"));
                                 ("market", None); ("limit", Some (SNum 20))]) =
  Some [("q", "a b&c=d%"); ("type", "track"); ("limit", "20")].
Proof.
  refine (eq_trans (buildQueryString_parse _ _) _).
  - repeat constructor; simpl; intuition discriminate.
  - reflexivity.
Defined.

(** ** Token cache and [makeRequest] *)

(** [getAccessToken] makes at most one exchange call; whenever it resolves,
    the cache holds exactly the token it returned; and the cache changes only
    through a successful exchange. *)
Theorem getAccessToken_coherent (tokenInfo : option TokenInfo) (now : Z)
    (exchange : ExchangeOutcome) (now_after : Z) :
  ts_exchanges (getAccessToken tokenInfo now exchange now_after) <= 1 /\
  (forall token, ts_result (getAccessToken tokenInfo now exchange now_after) = inr token ->
     exists ti, ts_cache (getAccessToken tokenInfo now exchange now_after) = Some ti /\
                accessToken ti = token) /\
  (ts_cache (getAccessToken tokenInfo now exchange now_after) <> tokenInfo ->
   ts_exchanges (getAccessToken tokenInfo now exchange now_after) = 1 /\
   exists token, ts_result (getAccessToken tokenInfo now exchange now_after) = inr token).
Proof.
  destruct tokenInfo as [ti|]; [destruct (Z.ltb now (expiresAt ti)) eqn:Hv|];
    destruct exchange as [tok ei | re m | e]; simpl; try rewrite Hv; simpl;
    (split; [lia|split]);
    first [ intros token H; injection H as <-; eexists; split; reflexivity
          | intros token H; discriminate
          | intros H; exfalso; apply H; reflexivity
          | intros _; split; [reflexivity | eexists; reflexivity] ].
Qed.

Lemma getAccessToken_coherent_witness :
  exists ti, ts_cache (getAccessToken None 1000 (ExchangeOk "BQD4" 3600) 1200) = Some ti /\
             accessToken ti = "BQD4".
Proof.
  exact (proj1 (proj2 (getAccessToken_coherent None 1000 (ExchangeOk "BQD4" 3600) 1200)) "BQD4" eq_refl).
Defined.

Lemma getAccessToken_error_keeps_cache (tokenInfo : option TokenInfo) (now : Z)
    (exchange : ExchangeOutcome) (now_after : Z) (e : JsError) :
  ts_result (getAccessToken tokenInfo now exchange now_after) = inl e ->
  ts_cache (getAccessToken tokenInfo now exchange now_after) = tokenInfo.
Proof.
  destruct tokenInfo as [ti|]; [destruct (Z.ltb now (expiresAt ti)) eqn:Hv|];
    destruct exchange; simpl; try rewrite Hv; simpl; congruence.
Qed.

(** [makeRequest] sends nothing without a token: when token acquisition
    rejects, no API request goes out, the call rejects with that same error
    and the token cache is left as it was. *)
Theorem api_makeRequest_needs_token (tokenInfo : option TokenInfo) (now : Z)
    (exchange : ExchangeOutcome) (now_after : Z) (req : ApiRequest) (outcome : AxiosOutcome)
    (e : JsError) :
  ts_result (getAccessToken tokenInfo now exchange now_after) = inl e ->
  rs_sent (api_makeRequest tokenInfo now exchange now_after req outcome) = [] /\
  rs_result (api_makeRequest tokenInfo now exchange now_after req outcome) = inl e /\
  rs_cache (api_makeRequest tokenInfo now exchange now_after req outcome) = tokenInfo.
Proof.
  intros H. pose proof (getAccessToken_error_keeps_cache _ _ _ _ _ H) as Hc.
  unfold api_makeRequest. rewrite H. simpl. auto.
Qed.

Lemma api_makeRequest_needs_token_witness :
  rs_sent (api_makeRequest None 0 (ExchangeAxiosError (Some "invalid_client") "Request failed") 10
             {| req_path := "/artists/0OdUWJ0sBjDrqHygGUXeCF"; req_method := "GET"; req_data := None |}
             (AxiosResponse JNull)) = [].
Proof.
  exact (proj1 (api_makeRequest_needs_token None 0
                  (ExchangeAxiosError (Some "invalid_client") "Request failed") 10
                  {| req_path := "/artists/0OdUWJ0sBjDrqHygGUXeCF"; req_method := "GET"; req_data := None |}
                  (AxiosResponse JNull)
                  (McpError InternalError "Failed to get Spotify access token: invalid_client")
                  eq_refl)).
Defined.

(** Two requests in a row: when the first one has to renew the token and the
    exchange succeeds, a second request made before the new expiry makes no
    exchange call and carries the same bearer token, whatever the API
    answered to the first. *)
Theorem api_makeRequest_reuses_token (tokenInfo : option TokenInfo) (now1 now_after1 now2 now_after2 : Z)
    (access_token : string) (expires_in : Z) (exchange2 : ExchangeOutcome)
    (req1 req2 : ApiRequest) (outcome1 outcome2 : AxiosOutcome) :
  token_valid tokenInfo now1 = false ->
  (now2 < now_after1 + expires_in * 1000)%Z ->
  rs_exchanges (api_makeRequest tokenInfo now1 (ExchangeOk access_token expires_in) now_after1 req1 outcome1) = 1 /\
  rs_exchanges (api_makeRequest
                  (rs_cache (api_makeRequest tokenInfo now1 (ExchangeOk access_token expires_in)
                                             now_after1 req1 outcome1))
                  now2 exchange2 now_after2 req2 outcome2) = 0 /\
  map sent_authorization
      (app (rs_sent (api_makeRequest tokenInfo now1 (ExchangeOk access_token expires_in) now_after1 req1 outcome1))
           (rs_sent (api_makeRequest
                       (rs_cache (api_makeRequest tokenInfo now1 (ExchangeOk access_token expires_in)
                                                  now_after1 req1 outcome1))
                       now2 exchange2 now_after2 req2 outcome2))) =
    ["Bearer " ++ access_token; "Bearer " ++ access_token].
Proof.
  intros Hinv Hlt. apply Z.ltb_lt in Hlt.
  destruct tokenInfo as [ti|]; simpl in Hinv; unfold api_makeRequest, getAccessToken; simpl;
    [rewrite Hinv; simpl|]; rewrite Hlt; simpl; repeat split.
Qed.

Lemma api_makeRequest_reuses_token_witness :
  rs_exchanges (api_makeRequest
                  (rs_cache (api_makeRequest None 1000 (ExchangeOk "BQD4" 3600) 1200
                               {| req_path := "/tracks/11dFghVXANMlKmJXsNCbNl"; req_method := "GET"; req_data := None |}
                               (AxiosFailure None "Request failed with status code 404")))
                  2000 (ExchangeOk "BQD5" 3600) 2100
                  {| req_path := "/albums/4aawyAB9vmqN3uQ7FjRGTy"; req_method := "GET"; req_data := None |}
                  (AxiosResponse JNull)) = 0.
Proof.
  refine (proj1 (proj2 (api_makeRequest_reuses_token None 1000 1200 2000 2100 "BQD4" 3600
                          (ExchangeOk "BQD5" 3600) _ _ _ _ eq_refl _))).
  lia.
Defined.

(** ** Dispatcher *)

Lemma validateArgs_present (a : js_object json) (req : list string) :
  (forall f, In f req -> In f (map fst a)) -> validateArgs (Some a) req = inr a.
Proof.
  intros H. unfold validateArgs.
  assert (Hf : find (fun field => negb (has_key field a)) req = None).
  { induction req as [|f req IH]; [reflexivity|]. simpl.
    assert (Hk : has_key f a = true).
    { unfold has_key. apply orb_true_iff. left. apply existsb_exists.
      destruct (proj1 (in_map_iff fst a f) (H f (or_introl eq_refl))) as [[k v] [Hk Hin]].
      exists (k, v). split; [exact Hin|]. simpl in Hk |- *. subst k. apply String.eqb_refl. }
    rewrite Hk. simpl. apply IH. intros g Hg. apply H. now right. }
  now rewrite Hf.
Qed.

Lemma validateArgs_invalid (args : option (js_object json)) (req : list string) (e : JsError) :
  validateArgs args req = inl e -> exists m, e = McpError InvalidParams m.
Proof.
  unfold validateArgs.
  destruct args as [a|]; [destruct (find (fun field => negb (has_key field a)) req)|];
    intros H; try discriminate; injection H as <-; eexists; reflexivity.
Qed.

Ltac route_case :=
  split;
  [ intros code msg Hd; unfold dispatch in Hd; cbn -[with_args validateArgs] in Hd;
    first
      [ discriminate
      | unfold with_args in Hd; destruct (validateArgs _ _) as [e|a] eqn:Ev; [|discriminate];
        injection Hd as ->; destruct (validateArgs_invalid _ _ _ Ev) as [m Hm];
        injection Hm as -> _; reflexivity ]
  | intros Hreq; unfold dispatch; cbn -[with_args validateArgs];
    first [ eexists; reflexivity
          | unfold with_args;
            match goal with a : option (js_object json) |- _ => destruct a end;
            eexists; reflexivity
          | unfold with_args; destruct Hreq as [(a & -> & Hf) | Hnil]; [|discriminate];
            rewrite (validateArgs_present a _ Hf); eexists; reflexivity ] ].

(** The dispatcher agrees with the tool listing: a listed tool never gets
    [MethodNotFound] (its only rejection is [InvalidParams]), and it is
    routed to its handler whenever the argument object holds every field of
    the listed [required] array, or the listing requires none (the tools
    without required fields also accept a request with no arguments). *)
Theorem dispatch_routes_listed (name : string) (req : list string) (args : option (js_object json)) :
  In (name, req) tool_definitions ->
  (forall code msg, dispatch name args = inl (McpError code msg) -> code = InvalidParams) /\
  ((exists a, args = Some a /\ forall f, In f req -> In f (map fst a)) \/ req = [] ->
   exists r, dispatch name args = inr r).
Proof.
  intros H. simpl in H.
  repeat (destruct H as [H|H]; [injection H as <- <-; route_case|]).
  destruct H.
Qed.

Lemma dispatch_routes_listed_witness :
  exists r, dispatch "search" (Some [("query", JStr "Daft Punk"); ("type", JStr "artist")]) = inr r.
Proof.
  apply (proj2 (dispatch_routes_listed "search" ["query"; "type"] _ ltac:(simpl; tauto))).
  left. eexists. split; [reflexivity|]. intros f Hf. simpl in Hf |- *. tauto.
Defined.

Lemma call_tool_script (get_token : M string)
    (method_body : handler -> string -> option (js_object json) -> M json)
    (stringify_pretty : json -> string) (name : string) (args : option (js_object json))
    (script : string) (w : World) (tr : list Event) :
  dispatch name args = inr (RScript script) ->
  call_tool get_token method_body stringify_pretty name args w tr =
    (applescript_settle (script_outcome w script), app tr [EvScript script]).
Proof.
  intros H. unfold call_tool, catch, bind, lift. rewrite H. simpl.
  destruct (applescript_settle_mcp (script_outcome w script)) as [[x Hx] | (c & m & Hx)];
    rewrite Hx; reflexivity.
Qed.

(** The four playback tools ignore their arguments (present, absent or
    anything): each runs exactly its fixed script once, makes no API
    request, and settles with the script's outcome. *)
Theorem playback_tools_run_fixed_script (get_token : M string)
    (method_body : handler -> string -> option (js_object json) -> M json)
    (stringify_pretty : json -> string) (args : option (js_object json))
    (w : World) (tr : list Event) :
  call_tool get_token method_body stringify_pretty "spotify_play_pause" args w tr =
    (applescript_settle (script_outcome w script_playpause), app tr [EvScript script_playpause]) /\
  call_tool get_token method_body stringify_pretty "spotify_next" args w tr =
    (applescript_settle (script_outcome w script_next), app tr [EvScript script_next]) /\
  call_tool get_token method_body stringify_pretty "spotify_previous" args w tr =
    (applescript_settle (script_outcome w script_previous), app tr [EvScript script_previous]) /\
  call_tool get_token method_body stringify_pretty "spotify_get_current_track" args w tr =
    (applescript_settle (script_outcome w script_current_track), app tr [EvScript script_current_track]).
Proof.
  repeat split; apply call_tool_script; reflexivity.
Qed.

(** [spotify_play_track] with a [uri] that is not a string: a falsy one
    ([null], [false], [0], [""]) is rejected with [InvalidParams], while a
    truthy non-string ([true], a non-zero number, an array, an object) has no
    [startsWith] method, and the resulting [TypeError] comes out as an
    [InternalError]. No script runs in either case. *)
Theorem play_track_uri_not_string (get_token : M string)
    (method_body : handler -> string -> option (js_object json) -> M json)
    (stringify_pretty : json -> string) (args : js_object json) (v : json)
    (w : World) (tr : list Event) :
  lookup "uri" args = Some v ->
  ((v = JNull \/ v = JBool false \/ v = JNum 0 \/ v = JStr EmptyString) ->
   call_tool get_token method_body stringify_pretty "spotify_play_track" (Some args) w tr =
     (inl (McpError InvalidParams play_track_uri_error), tr)) /\
  ((v = JBool true \/ (exists z, z <> 0%Z /\ v = JNum z) \/ (exists l, v = JArr l) \/
    (exists o, v = JObj o)) ->
   call_tool get_token method_body stringify_pretty "spotify_play_track" (Some args) w tr =
     (inl (McpError InternalError
             ("Unexpected error processing tool spotify_play_track: " ++
              "args.uri.startsWith is not a function")), tr)).
Proof.
  intros Huri.
  assert (Hd : dispatch "spotify_play_track" (Some args) = inr (RPlayTrack args)).
  { unfold dispatch. cbn -[with_args]. unfold with_args, validateArgs. simpl.
    now rewrite (lookup_has_key _ _ _ Huri). }
  unfold call_tool, catch, bind, lift. rewrite Hd. simpl. unfold play_track. rewrite Huri.
  split.
  - intros [-> | [-> | [-> | ->]]]; reflexivity.
  - intros [-> | [(z & Hz & ->) | [(l & ->) | (o & ->)]]]; try reflexivity.
    destruct z; [congruence | reflexivity | reflexivity].
Qed.

Lemma play_track_uri_not_string_witness :
  call_tool (ret "BQD4") (fun _ _ _ => ret JNull) (fun _ => EmptyString)
            "spotify_play_track" (Some [("uri", JNum 42)])
            {| http_response := fun _ _ => inr JNull; script_outcome := fun _ => ScriptResult None |} [] =
  (inl (McpError InternalError
          ("Unexpected error processing tool spotify_play_track: " ++
           "args.uri.startsWith is not a function")), []).
Proof.
  apply (proj2 (play_track_uri_not_string _ _ _ [("uri", JNum 42)] (JNum 42) _ _ eq_refl)).
  right. left. exists 42%Z. split; [discriminate | reflexivity].
Defined.

(** The desktop bridge rejects exactly when the runtime reports an error,
    and then always with an [InternalError]; when it resolves, the text is
    never empty: the script's result, or ["Success"] for an empty or missing
    one. *)
Theorem applescript_settle_outcomes (o : ScriptOutcome) :
  (forall s, applescript_settle o = inr s -> s <> EmptyString) /\
  (forall e, applescript_settle o = inl e -> exists m, e = McpError InternalError m) /\
  ((exists e, applescript_settle o = inl e) <-> exists message, o = ScriptError message) /\
  (forall result, o = ScriptResult result ->
     applescript_settle o = inr "Success" <->
     result = None \/ result = Some EmptyString \/ result = Some "Success").
Proof.
  destruct o as [message | [r|]]; simpl.
  - split; [intros s H; destruct (js_truthy_string message && _); discriminate|].
    split; [intros e H; destruct (js_truthy_string message && _); injection H as <-; eauto|].
    split; [split; [intros _; eauto | intros _; destruct (js_truthy_string message && _); eauto]|].
    intros ? H; discriminate.
  - destruct (String.eqb_spec r EmptyString) as [->|Hne].
    + split; [intros s H; injection H as <-; discriminate|].
      split; [intros e H; discriminate|].
      split; [split; [intros [e H]; discriminate | intros [m H]; discriminate]|].
      intros result H. injection H as <-. split; [intros _; auto | intros _; reflexivity].
    + split; [intros s H; injection H as <-; exact Hne|].
      split; [intros e H; discriminate|].
      split; [split; [intros [e H]; discriminate | intros [m H]; discriminate]|].
      intros result H. injection H as <-. split.
      * intros H. injection H as ->. auto.
      * intros [H | [H | H]]; try discriminate; injection H as ->; [congruence | reflexivity].
  - split; [intros s H; injection H as <-; discriminate|].
    split; [intros e H; discriminate|].
    split; [split; [intros [e H]; discriminate | intros [m H]; discriminate]|].
    intros result H. injection H as <-. split; [intros _; auto | intros _; reflexivity].
Qed.

Lemma applescript_settle_outcomes_witness :
  applescript_settle (ScriptResult (Some EmptyString)) = inr "Success".
Proof.
  apply (proj2 ((proj2 (proj2 (proj2 (applescript_settle_outcomes (ScriptResult (Some EmptyString))))))
                  (Some EmptyString) eq_refl)).
  right. left. reflexivity.
Defined.

(** ** Playlist and chapter handlers *)

(** The playlist listings and the audiobook chapters check neither [limit]
    nor [offset]: for any values, negative or above 50 included, they make
    exactly one GET. Its query holds the defined ones of [market], [limit],
    [offset] (and [fields]), in that order, and nothing else. *)
Theorem listings_forward_unchecked (id : string) (market : option string) (limit offset : option Z)
    (fields : option string) (w : World) (tr : list Event) :
  PlaylistsHandler.getPlaylistTracks id market limit offset fields w tr =
    (http_response w "GET"
       ("/playlists/" ++ extractPlaylistId id ++ "/tracks" ++
        query_of_pairs (present_pairs [("market", option_map SStr market);
                                       ("limit", option_map SNum limit);
                                       ("offset", option_map SNum offset);
                                       ("fields", option_map SStr fields)])),
     app tr [EvHttp "GET"
       ("/playlists/" ++ extractPlaylistId id ++ "/tracks" ++
        query_of_pairs (present_pairs [("market", option_map SStr market);
                                       ("limit", option_map SNum limit);
                                       ("offset", option_map SNum offset);
                                       ("fields", option_map SStr fields)]))]) /\
  PlaylistsHandler.getPlaylistItems id market limit offset fields w tr =
    (http_response w "GET"
       ("/playlists/" ++ extractPlaylistId id ++ "/items" ++
        query_of_pairs (present_pairs [("market", option_map SStr market);
                                       ("limit", option_map SNum limit);
                                       ("offset", option_map SNum offset);
                                       ("fields", option_map SStr fields)])),
     app tr [EvHttp "GET"
       ("/playlists/" ++ extractPlaylistId id ++ "/items" ++
        query_of_pairs (present_pairs [("market", option_map SStr market);
                                       ("limit", option_map SNum limit);
                                       ("offset", option_map SNum offset);
                                       ("fields", option_map SStr fields)]))]) /\
  AudiobooksHandler.getAudiobookChapters id market limit offset w tr =
    (http_response w "GET"
       ("/audiobooks/" ++ extractAudiobookId id ++ "/chapters" ++
        query_of_pairs (present_pairs [("market", option_map SStr market);
                                       ("limit", option_map SNum limit);
                                       ("offset", option_map SNum offset)])),
     app tr [EvHttp "GET"
       ("/audiobooks/" ++ extractAudiobookId id ++ "/chapters" ++
        query_of_pairs (present_pairs [("market", option_map SStr market);
                                       ("limit", option_map SNum limit);
                                       ("offset", option_map SNum offset)]))]).
Proof.
  destruct market, limit, offset, fields; repeat split; reflexivity.
Qed.

Ltac body_facts :=
  repeat match goal with
         | |- _ /\ _ => split
         | |- NoDup _ => repeat constructor; simpl; intuition discriminate
         | |- forall k, In k _ -> In k _ => intros k Hk; simpl in Hk |- *; tauto
         | |- _ <-> _ =>
             split; intros Hb;
             repeat match type of Hb with _ /\ _ => destruct Hb as [? Hb] end;
             try discriminate; repeat split; reflexivity
         | |- _ = _ => reflexivity
         end.

(** [modifyPlaylist] sends one PUT to [/playlists/<id>] whose body has
    distinct keys among [name], [public], [collaborative] and
    [description]: each is there, with its value, exactly when supplied.
    With none of them supplied the body is the empty object, and the PUT is
    still made. *)
Theorem modifyPlaylist_body (id : string) (name : option string) (isPublic collaborative : option bool)
    (description : option string) :
  exists o,
    PlaylistsHandler.modifyPlaylist id name isPublic collaborative description =
      {| req_path := "/playlists/" ++ extractPlaylistId id; req_method := "PUT";
         req_data := Some (JObj o) |} /\
    NoDup (map fst o) /\
    (forall k, In k (map fst o) -> In k ["name"; "public"; "collaborative"; "description"]) /\
    lookup "name" o = option_map JStr name /\
    lookup "public" o = option_map JBool isPublic /\
    lookup "collaborative" o = option_map JBool collaborative /\
    lookup "description" o = option_map JStr description /\
    (o = [] <-> name = None /\ isPublic = None /\ collaborative = None /\ description = None).
Proof.
  destruct name, isPublic, collaborative, description;
    (eexists; split; [reflexivity | body_facts]).
Qed.

(** Adding and removing tracks both address [/playlists/<id>/tracks], with
    POST and DELETE. The body always carries the [uris] (resp. [tracks])
    array as given, carries [position] (resp. [snapshot_id]) exactly when
    supplied, and nothing else. *)
Theorem playlist_tracks_bodies (id : string) (uris : list string) (position : option Z)
    (tracks : list json) (snapshot_id : option string) :
  (exists o,
     PlaylistsHandler.addTracksToPlaylist id uris position =
       {| req_path := "/playlists/" ++ extractPlaylistId id ++ "/tracks"; req_method := "POST";
          req_data := Some (JObj o) |} /\
     NoDup (map fst o) /\
     (forall k, In k (map fst o) -> In k ["uris"; "position"]) /\
     lookup "uris" o = Some (JArr (map JStr uris)) /\
     lookup "position" o = option_map JNum position) /\
  (exists o,
     PlaylistsHandler.removeTracksFromPlaylist id tracks snapshot_id =
       {| req_path := "/playlists/" ++ extractPlaylistId id ++ "/tracks"; req_method := "DELETE";
          req_data := Some (JObj o) |} /\
     NoDup (map fst o) /\
     (forall k, In k (map fst o) -> In k ["tracks"; "snapshot_id"]) /\
     lookup "tracks" o = Some (JArr tracks) /\
     lookup "snapshot_id" o = option_map JStr snapshot_id).
Proof.
  split; [destruct position | destruct snapshot_id];
    (eexists; split; [reflexivity | body_facts]).
Qed.
